(** * gosec analyzer core: a shallow embedding of [analyzer.go]

  The development follows the Go source function by function.  Go strings
  are byte strings ([string]), Go [int] is a 64-bit integer carried by [Z]
  with its wrap-around written out, Go maps are [gmap]s, slices are lists.
  The standard library and the parts of gosec that live in other files
  (rules, loader, import tracker) are taken as an environment. *)

From Stdlib Require Import ZArith Ascii String.
From stdpp Require Import base strings list gmap fin_maps sorting.

Local Open Scope Z_scope.

#[local] Set Warnings "-clear-no-such-hyp".

(** ** Go [int] *)

Module GoInt.

Definition int_min : Z := - 2 ^ 63.
Definition int_max : Z := 2 ^ 63 - 1.

(** Two's complement wrap-around of a 64-bit signed integer. *)
Definition wrap (z : Z) : Z := (z + 2 ^ 63) mod 2 ^ 64 - 2 ^ 63.

Definition in_range (z : Z) : Prop := int_min <= z <= int_max.

End GoInt.

(** ** Go strings: the functions of [strings], [strconv] and [regexp] used *)

Module GoStrings.

(** [strings.Contains(s, substr)] *)
Fixpoint Contains (s substr : string) : bool :=
  if String.prefix substr s then true
  else match s with
       | EmptyString => false
       | String _ r => Contains r substr
       end.

(** The class [\d] of RE2: ASCII decimal digits only. *)
Definition isDigit (c : ascii) : bool :=
  match c with
  | "0" | "1" | "2" | "3" | "4" | "5" | "6" | "7" | "8" | "9" => true
  | _ => false
  end%char.

(** One match of the pattern [(G\d{3})] starting exactly at the head of
    [s]: the matched text, if any. *)
Definition matchRuleID (s : string) : option string :=
  match s with
  | String g (String d1 (String d2 (String d3 _))) =>
      if Ascii.eqb g "G" && isDigit d1 && isDigit d2 && isDigit d3
      then Some (String g (String d1 (String d2 (String d3 EmptyString))))
      else None
  | _ => None
  end.

(** [regexp.MustCompile("(G\\d{3})").FindAllStringSubmatch(s, -1)]: the
    leftmost, non-overlapping matches, scanning left to right; each match
    is the slice [full match; group 1].  [skip] counts the bytes of the
    last match still to be stepped over (the pattern has fixed width 4). *)
Fixpoint findAllFrom (skip : nat) (s : string) : list (list string) :=
  match s with
  | EmptyString => []
  | String _ r =>
      match skip with
      | S k => findAllFrom k r
      | O => match matchRuleID s with
             | Some m => [m; m] :: findAllFrom 3 r
             | None => findAllFrom 0 r
             end
      end
  end.

Definition FindAllStringSubmatch (s : string) : list (list string) :=
  findAllFrom 0 s.

(** [strings.Split(s, sep)] for a one-byte separator. *)
Fixpoint splitAcc (sep : ascii) (cur : string) (s : string) : list string :=
  match s with
  | EmptyString => [String.rev cur]
  | String c r =>
      if Ascii.eqb c sep then String.rev cur :: splitAcc sep EmptyString r
      else splitAcc sep (String c cur) r
  end.

Definition Split (s : string) (sep : ascii) : list string :=
  splitAcc sep EmptyString s.

Definition digitVal (c : ascii) : Z := Z.of_nat (nat_of_ascii c) - 48.

(** Value of a non-empty run of decimal digits; [None] on any other byte. *)
Fixpoint parseDigits (acc : Z) (s : string) : option Z :=
  match s with
  | EmptyString => Some acc
  | String c r =>
      if isDigit c then parseDigits (10 * acc + digitVal c) r else None
  end.

(** [strconv.Atoi]: an optional sign, then one or more decimal digits;
    a value outside the 64-bit range is an error.  [None] stands for the
    returned [*NumError]. *)
Definition Atoi (s : string) : option Z :=
  let '(neg, body) :=
    match s with
    | String "-" r => (true, r)
    | String "+" r => (false, r)
    | _ => (false, s)
    end%char in
  match body with
  | EmptyString => None
  | _ =>
      match parseDigits 0 body with
      | None => None
      | Some v =>
          let z := if neg then - v else v in
          if (GoInt.int_min <=? z) && (z <=? GoInt.int_max)
          then Some z else None
      end
  end.

End GoStrings.

Import GoStrings.

Local Open Scope string_scope.
Local Open Scope list_scope.

(** ** Syntax trees and [ast.Walk] *)

Module GoAst.

(** An [ast.Node]: its identity (the pointer the comment map is keyed by),
    its dynamic type (what [reflect.TypeOf] returns) and its children in the
    order [ast.Walk] visits them. *)
#[warnings="-register-all"]
Inductive Node : Type :=
| MkNode (addr : nat) (kind : string) (children : list Node).

Definition addr (n : Node) : nat := match n with MkNode a _ _ => a end.
Definition kind (n : Node) : string := match n with MkNode _ k _ => k end.
Definition children (n : Node) : list Node := match n with MkNode _ _ c => c end.

(** [ast.CommentMap]: node to its comment groups; a group is carried by the
    string its [Text()] method returns. *)
Abbreviation CommentMap := (gmap nat (list string)).

(** One parsed source file: the [*ast.File] root, the name and line count the
    file set reports for it, and the value of [ast.NewCommentMap] on it. *)
Record File := {
  fileName : string;
  fileLineCount : Z;
  fileRoot : Node;
  fileComments : CommentMap
}.

(** [ast.Walk(v, node)]: call [v.Visit(node)]; when the visitor it returns
    is nil stop, otherwise walk the children in order and finish with
    [Visit(nil)].  A visitor is a state [V] with its [Visit] method, which
    returns the state and whether the returned visitor is non-nil. *)
Fixpoint Walk {V : Type} (Visit : V -> option Node -> V * bool)
    (v : V) (node : Node) : V :=
  match node with
  | MkNode _ _ cs =>
      let '(w, more) := Visit v (Some node) in
      if more : bool then
        fst (Visit (fold_left (fun w c => Walk Visit w c) cs w) None)
      else w
  end.

End GoAst.

Import GoAst.

(** ** Errors, early returns and panics *)

(** A Go [error] value. *)
Inductive error : Type :=
| NumError (func num : string)
| OtherError (msg : string).

(** How a loop body or a function ends: it goes on, returns an error, or
    panics (an index out of range). *)
Inductive Flow (A : Type) : Type :=
| Next (a : A)
| Return (a : A) (err : error)
| Panic (a : A).

Arguments Next {A} a.
Arguments Return {A} a err.
Arguments Panic {A} a.

Definition flowState {A : Type} (f : Flow A) : A :=
  match f with Next a | Return a _ | Panic a => a end.

(** A [for ... range] loop whose body may return or panic. *)
Fixpoint forRange {A B : Type} (body : A -> B -> Flow A) (a : A) (l : list B) : Flow A :=
  match l with
  | [] => Next a
  | x :: rest =>
      match body a x with
      | Next a' => forRange body a' rest
      | stop => stop
      end
  end.

(** How a call ended, without the state. *)
Inductive Outcome : Type :=
| ReturnedNil
| ReturnedErr (err : error)
| Panicked.

Definition outcome {A : Type} (f : Flow A) : Outcome :=
  match f with
  | Next _ => ReturnedNil
  | Return _ err => ReturnedErr err
  | Panic _ => Panicked
  end.

(** ** The environment of the analyzer

    What [analyzer.go] uses from other packages and other files of gosec
    without looking inside: opaque data, and the helpers whose result only
    travels through. *)

Class GoEnv := {
  gosec_Issue : Type;
  gosec_Config : Type;
  token_FileSet : Type;
  types_Info : Type;
  types_Package : Type;
  gosec_ImportTracker : Type;
  (** [conf.IsGlobalEnabled(Nosec)] *)
  IsGlobalEnabledNosec : gosec_Config -> bool * option error;
  NewImportTracker : gosec_ImportTracker;
  TrackPackages : gosec_ImportTracker -> option types_Package -> gosec_ImportTracker;
  TrackImport : gosec_ImportTracker -> Node -> gosec_ImportTracker;
  (** [GetLocation(n, ctx)], which reads the file set of the context only *)
  GetLocation : Node -> option token_FileSet -> string * Z;
  path_Base : string -> string;
  path_Join : string -> string -> string;
  strings_TrimSpace : string -> string
}.

Section Gosec.

Context `{Env : GoEnv}.

(** *** Data *)

(** The lines written through [*log.Logger], one constructor per format
    string of the source. *)
Inductive LogLine : Type :=
| LogSkipping (abspath : string)
| LogImportDirectory (abspath : string)
| LogCheckingPackage (name : string)
| LogCheckingFile (name : string)
| LogRuleError (ruleType : string) (err : error) (file : string) (line : Z).

(** A [*log.Logger]: its prefix and what was written to it so far. *)
Record Logger := {
  logPrefix : string;
  logOutput : list LogLine
}.

Definition Printf (l : Logger) (line : LogLine) : Logger :=
  {| logPrefix := logPrefix l; logOutput := logOutput l ++ [line] |}.

Record Context := {
  FileSet : option token_FileSet;
  Comments : CommentMap;
  Info : option types_Info;
  Pkg : option types_Package;
  PkgFiles : list File;
  Root : option File;
  Config : option gosec_Config;
  Imports : option gosec_ImportTracker;
  Ignores : list (gmap string bool)
}.

(** [&Context{}] *)
Definition emptyContext : Context :=
  {| FileSet := None; Comments := ∅; Info := None; Pkg := None;
     PkgFiles := []; Root := None; Config := None; Imports := None;
     Ignores := [] |}.

Record Metrics := {
  NumFiles : Z;
  NumLines : Z;
  NumNosec : Z;
  NumFound : Z
}.

(** [&Metrics{}] *)
Definition emptyMetrics : Metrics :=
  {| NumFiles := 0; NumLines := 0; NumNosec := 0; NumFound := 0 |}.

(** The [Rule] interface: [ID()], [Match(n, ctx)], and the dynamic type the
    rule-error log line prints. *)
Record Rule := {
  ID : string;
  Match : Node -> Context -> option gosec_Issue * option error;
  ruleType : string
}.

(** Modelled from the spec: the type [RuleSet] of the rule registry, which
    is declared outside [analyzer.go]; it maps a syntax-node category to the
    ordered sequence of rules registered for it. *)
Abbreviation RuleSet := (gmap string (list Rule)).

(** Modelled from the spec: [RuleSet.Register], declared outside
    [analyzer.go]; "records the rule against each listed syntax-node
    category", after those already recorded. *)
Definition Register (rs : RuleSet) (r : Rule) (nodes : list string) : RuleSet :=
  fold_left (fun rs t => <[t := default [] (rs !! t) ++ [r]]> rs) nodes rs.

(** Modelled from the spec: [RuleSet.RegisteredFor], declared outside
    [analyzer.go]; "returns all rules registered for that category". *)
Definition RegisteredFor (rs : RuleSet) (n : Node) : list Rule :=
  default [] (rs !! kind n).

(** A rule builder: [func(id string, c Config) (Rule, []ast.Node)]; the
    nodes stand for their dynamic types. *)
Definition RuleBuilder : Type := string -> gosec_Config -> Rule * list string.

(** Modelled from the spec: the type [Error] of a load or parse error,
    declared outside [analyzer.go]: line, column and message (the file is
    the key of the error map). *)
Record Error := {
  Line : Z;
  Column : Z;
  Err : string
}.

(** Modelled from the spec: [NewError], declared outside [analyzer.go]. *)
Definition NewError (line column : Z) (err : string) : Error :=
  {| Line := line; Column := column; Err := err |}.

Record Analyzer := {
  ignoreNosec : bool;
  ruleset : RuleSet;
  context : Context;
  config : gosec_Config;
  logger : Logger;
  issues : list gosec_Issue;
  stats : Metrics;
  errors : gmap string (list Error)
}.

(** Field updates, written [gosec.f = v] in the source. *)
Definition set_context (gosec : Analyzer) (c : Context) : Analyzer :=
  {| ignoreNosec := ignoreNosec gosec; ruleset := ruleset gosec; context := c;
     config := config gosec; logger := logger gosec; issues := issues gosec;
     stats := stats gosec; errors := errors gosec |}.

Definition set_ruleset (gosec : Analyzer) (rs : RuleSet) : Analyzer :=
  {| ignoreNosec := ignoreNosec gosec; ruleset := rs; context := context gosec;
     config := config gosec; logger := logger gosec; issues := issues gosec;
     stats := stats gosec; errors := errors gosec |}.

Definition set_logger (gosec : Analyzer) (l : Logger) : Analyzer :=
  {| ignoreNosec := ignoreNosec gosec; ruleset := ruleset gosec;
     context := context gosec; config := config gosec; logger := l;
     issues := issues gosec; stats := stats gosec; errors := errors gosec |}.

Definition set_issues (gosec : Analyzer) (l : list gosec_Issue) : Analyzer :=
  {| ignoreNosec := ignoreNosec gosec; ruleset := ruleset gosec;
     context := context gosec; config := config gosec; logger := logger gosec;
     issues := l; stats := stats gosec; errors := errors gosec |}.

Definition set_stats (gosec : Analyzer) (m : Metrics) : Analyzer :=
  {| ignoreNosec := ignoreNosec gosec; ruleset := ruleset gosec;
     context := context gosec; config := config gosec; logger := logger gosec;
     issues := issues gosec; stats := m; errors := errors gosec |}.

Definition set_errors (gosec : Analyzer) (e : gmap string (list Error)) : Analyzer :=
  {| ignoreNosec := ignoreNosec gosec; ruleset := ruleset gosec;
     context := context gosec; config := config gosec; logger := logger gosec;
     issues := issues gosec; stats := stats gosec; errors := e |}.

Definition set_Ignores (c : Context) (ig : list (gmap string bool)) : Context :=
  {| FileSet := FileSet c; Comments := Comments c; Info := Info c; Pkg := Pkg c;
     PkgFiles := PkgFiles c; Root := Root c; Config := Config c;
     Imports := Imports c; Ignores := ig |}.

Definition set_Imports (c : Context) (i : option gosec_ImportTracker) : Context :=
  {| FileSet := FileSet c; Comments := Comments c; Info := Info c; Pkg := Pkg c;
     PkgFiles := PkgFiles c; Root := Root c; Config := Config c;
     Imports := i; Ignores := Ignores c |}.

Definition log (gosec : Analyzer) (line : LogLine) : Analyzer :=
  set_logger gosec (Printf (logger gosec) line).

(** *** [NewAnalyzer] *)

Definition NewAnalyzer (conf : gosec_Config) (logger : option Logger) : Analyzer :=
  let ignoreNoSec :=
    match IsGlobalEnabledNosec conf with
    | (enabled, None) => enabled
    | (_, Some _) => false
    end in
  let logger :=
    match logger with
    | None => {| logPrefix := "[gosec]"; logOutput := [] |}
    | Some l => l
    end in
  {| ignoreNosec := ignoreNoSec; ruleset := ∅; context := emptyContext;
     config := conf; logger := logger; issues := []; stats := emptyMetrics;
     errors := ∅ |}.

(** *** [LoadRules]

    [for id, def := range ruleDefinitions] visits the entries of a Go map
    in an order the language leaves unspecified; [order] is the order in
    which one execution of the loop meets them. *)

Definition LoadRulesIn (order : list (string * RuleBuilder)) (gosec : Analyzer) : Analyzer :=
  fold_left
    (fun gosec '(id, def) =>
       let '(r, nodes) := def id (config gosec) in
       set_ruleset gosec (Register (ruleset gosec) r nodes))
    order gosec.

(** One execution of [LoadRules]: the loop meets every entry of the table
    exactly once, in some order. *)
Inductive LoadRules (gosec : Analyzer) (ruleDefinitions : gmap string RuleBuilder)
  : Analyzer -> Prop :=
| LoadRules_range (order : list (string * RuleBuilder)) :
    order ≡ₚ map_to_list ruleDefinitions ->
    LoadRules gosec ruleDefinitions (LoadRulesIn order gosec).

(** *** [ignore] *)

Definition incNosec (m : Metrics) : Metrics :=
  {| NumFiles := NumFiles m; NumLines := NumLines m;
     NumNosec := GoInt.wrap (NumNosec m + 1); NumFound := NumFound m |}.

Definition incFound (m : Metrics) : Metrics :=
  {| NumFiles := NumFiles m; NumLines := NumLines m;
     NumNosec := NumNosec m; NumFound := GoInt.wrap (NumFound m + 1) |}.

Definition addFile (m : Metrics) (lines : Z) : Metrics :=
  {| NumFiles := GoInt.wrap (NumFiles m + 1);
     NumLines := GoInt.wrap (NumLines m + lines);
     NumNosec := NumNosec m; NumFound := NumFound m |}.

(** The loop over the comment groups of the node; [Some] is a [return] from
    inside the loop, which happens at the first group holding the marker
    (and after [NumNosec++]). *)
Fixpoint ignoreGroups (groups : list string) : option (list string * bool) :=
  match groups with
  | [] => None
  | group :: rest =>
      if Contains group "#nosec" then
        let matches := FindAllStringSubmatch group in
        if (length matches =? 0)%nat then Some ([], true)
        else Some (map (fun v => nth 1 v "") matches, false)
      else ignoreGroups rest
  end.

Definition ignore (gosec : Analyzer) (n : Node) : list string * bool * Analyzer :=
  match Comments (context gosec) !! addr n with
  | Some groups =>
      if negb (ignoreNosec gosec) then
        match ignoreGroups groups with
        | Some (ignores, ignoreAll) =>
            (ignores, ignoreAll, set_stats gosec (incNosec (stats gosec)))
        | None => ([], false, gosec)
        end
      else ([], false, gosec)
  | None => ([], false, gosec)
  end.

(** *** [Visit]

    The visitor state is the analyzer together with a record of what the
    walk did: each exclusion set pushed on entering a node, and each call of
    a rule's [Match]. *)

Inductive Event : Type :=
| EvScope (node : nat) (ignores : gmap string bool)
| EvMatch (rule : string) (node : nat).

(** One turn of the loop over [gosec.ruleset.RegisteredFor(n)]. *)
Definition runRule (n : Node) (ignores : gmap string bool)
    (st : Analyzer * list Event) (rule : Rule) : Analyzer * list Event :=
  let '(gosec, ev) := st in
  match ignores !! ID rule with
  | Some _ => st
  | None =>
      let '(issue, err) := Match rule n (context gosec) in
      let gosec :=
        match err with
        | Some err =>
            let '(file, line) := GetLocation n (FileSet (context gosec)) in
            log gosec (LogRuleError (ruleType rule) err (path_Base file) line)
        | None => gosec
        end in
      let gosec :=
        match issue with
        | Some issue =>
            set_stats (set_issues gosec (issues gosec ++ [issue]))
                      (incFound (stats gosec))
        | None => gosec
        end in
      (gosec, ev ++ [EvMatch (ID rule) (addr n)])
  end.

(** The union of exclusions: a copy of the set on top of the stack (entry by
    entry into a fresh map) with every newly ignored rule set to [true]. *)
Definition unionIgnores (stack : list (gmap string bool)) (ignoredRules : list string)
  : gmap string bool :=
  let ignores : gmap string bool :=
    match stack with
    | top :: _ => list_to_map (map_to_list top)
    | [] => ∅
    end in
  fold_left (fun ignores v => <[v := true]> ignores) ignoredRules ignores.

Definition Visit (st : Analyzer * list Event) (n : option Node)
  : (Analyzer * list Event) * bool :=
  let '(gosec, ev) := st in
  match n with
  | None =>
      let ctx := context gosec in
      if (0 <? length (Ignores ctx))%nat
      then ((set_context gosec (set_Ignores ctx (drop 1 (Ignores ctx))), ev), true)
      else ((gosec, ev), true)
  | Some n =>
      let '(ignoredRules, ignoreAll, gosec) := ignore gosec n in
      if ignoreAll then ((gosec, ev), false)
      else
        let ctx := context gosec in
        let ignores := unionIgnores (Ignores ctx) ignoredRules in
        let ctx := set_Ignores ctx (ignores :: Ignores ctx) in
        let ctx := set_Imports ctx ((fun t => TrackImport t n) <$> Imports ctx) in
        let gosec := set_context gosec ctx in
        (fold_left (runRule n ignores) (RegisteredFor (ruleset gosec) n)
           (gosec, ev ++ [EvScope (addr n) ignores]),
         true)
  end.

(** [ast.Walk(gosec, node)] *)
Definition WalkAnalyzer (st : Analyzer * list Event) (node : Node) : Analyzer * list Event :=
  Walk Visit st node.

(** *** [Report] and [Reset] *)

Definition Report (gosec : Analyzer)
  : list gosec_Issue * Metrics * gmap string (list Error) :=
  (issues gosec, stats gosec, errors gosec).

Definition Reset (gosec : Analyzer) : Analyzer :=
  {| ignoreNosec := ignoreNosec gosec; ruleset := ruleset gosec;
     context := emptyContext; config := config gosec; logger := logger gosec;
     issues := []; stats := emptyMetrics; errors := errors gosec |}.

(** *** [Process] *)

(** A [*packages.Package]: what [Process] reads of it.  [Errors] holds the
    string [packErr.Error()] of each error. *)
Record Package := {
  Name : string;
  Errors : list string;
  Syntax : list File;
  Fset : token_FileSet;
  TypesInfo : option types_Info;
  Types : option types_Package
}.

(** The loader [Process] calls, each function with the [(value, err)] pair
    it returns: [GetPkgAbsPath] (an error when the path does not exist),
    [build.Default.ImportDir] (the [GoFiles] of the base package) and
    [packages.Load]. *)
Record Loader := {
  GetPkgAbsPath : string -> string * option error;
  ImportDir : string -> list string * option error;
  packages_Load : list string -> list Package * option error
}.

(** The first loop: resolve every package path. *)
Definition loadPath (ld : Loader) (st : Analyzer * list Package) (packagePath : string)
  : Flow (Analyzer * list Package) :=
  let '(gosec, pkgs) := st in
  match GetPkgAbsPath ld packagePath with
  | (abspath, Some _) => Next (log gosec (LogSkipping abspath), pkgs)
  | (abspath, None) =>
      let gosec := log gosec (LogImportDirectory abspath) in
      match ImportDir ld packagePath with
      | (_, Some err) => Return (gosec, pkgs) err
      | (goFiles, None) =>
          let packageFiles := map (fun filename => path_Join packagePath filename) goFiles in
          match packages_Load ld packageFiles with
          | (_, Some err) => Return (gosec, pkgs) err
          | (_pkgs, None) => Next (gosec, pkgs ++ _pkgs)
          end
      end
  end.

(** The body of the loop over [packageInfo.Errors]. *)
Definition recordPackErr (errors : gmap string (list Error)) (packErr : string)
  : Flow (gmap string (list Error)) :=
  let infoErr := Split packErr ":" in
  match infoErr !! 0%nat with
  | None => Panic errors
  | Some filePath =>
  match infoErr !! 1%nat with
  | None => Panic errors
  | Some s1 =>
  match Atoi s1 with
  | None => Return errors (NumError "Atoi" s1)
  | Some line =>
  match infoErr !! 2%nat with
  | None => Panic errors
  | Some s2 =>
  match Atoi s2 with
  | None => Return errors (NumError "Atoi" s2)
  | Some column =>
  match infoErr !! 3%nat with
  | None => Panic errors
  | Some s3 =>
      let newErr := NewError line column (strings_TrimSpace s3) in
      match errors !! filePath with
      | Some errSlice => Next (<[filePath := errSlice ++ [newErr]]> errors)
      | None => Next (<[filePath := [] ++ [newErr]]> errors)
      end
  end end end end end end.

(** The second loop: the errors of every loaded package. *)
Definition recordErrors (errors : gmap string (list Error)) (pkgs : list Package)
  : Flow (gmap string (list Error)) :=
  forRange (fun errors packageInfo => forRange recordPackErr errors (Errors packageInfo))
           errors pkgs.

(** Modelled from the spec: the order of [sortErrors], declared outside
    [analyzer.go]: "ascending by (line, column)". *)
Definition byLineAndColumn (e1 e2 : Error) : Prop :=
  Line e1 < Line e2 \/ (Line e1 = Line e2 /\ Column e1 <= Column e2).

#[local] Instance byLineAndColumn_dec : RelDecision byLineAndColumn.
Proof. intros e1 e2. unfold byLineAndColumn. apply _. Defined.

(** Modelled from the spec: [sortErrors], declared outside [analyzer.go]:
    the errors of every file become "a sequence sorted ascending by
    (line, column)". *)
Definition sortErrors (allErrors : gmap string (list Error)) : gmap string (list Error) :=
  merge_sort byLineAndColumn <$> allErrors.

(** The body of the loop over [pkg.Syntax]. *)
Definition checkFile (pkg : Package) (gosec : Analyzer) (file : File) : Analyzer :=
  let gosec := log gosec (LogCheckingFile (fileName file)) in
  let ctx :=
    {| FileSet := Some (Fset pkg);
       Comments := fileComments file;
       Info := TypesInfo pkg;
       Pkg := Types pkg;
       PkgFiles := Syntax pkg;
       Root := Some file;
       Config := Some (config gosec);
       Imports := Some (TrackPackages NewImportTracker (Types pkg));
       Ignores := Ignores (context gosec) |} in
  let gosec := set_context gosec ctx in
  let gosec := fst (WalkAnalyzer (gosec, []) (fileRoot file)) in
  set_stats gosec (addFile (stats gosec) (fileLineCount file)).

(** The third loop: walk every file of every package. *)
Definition checkPackage (gosec : Analyzer) (pkg : Package) : Analyzer :=
  fold_left (checkFile pkg) (Syntax pkg) (log gosec (LogCheckingPackage (Name pkg))).

(** The second and third loops and the sort between them: what [Process]
    does once the packages are loaded. *)
Definition checkPackages (gosec : Analyzer) (pkgs : list Package) : Flow Analyzer :=
  match recordErrors (errors gosec) pkgs with
  | Return errs err => Return (set_errors gosec errs) err
  | Panic errs => Panic (set_errors gosec errs)
  | Next errs =>
      let gosec := set_errors gosec (sortErrors errs) in
      Next (fold_left checkPackage pkgs gosec)
  end.

(** [Process(buildTags, packagePaths...)]; [Next] is [return nil].  The
    build tags only reach a local copy of [build.Default] that nothing
    reads. *)
Definition Process (ld : Loader) (gosec : Analyzer) (buildTags : list string)
    (packagePaths : list string) : Flow Analyzer :=
  match forRange (loadPath ld) (gosec, []) packagePaths with
  | Return (gosec, _) err => Return gosec err
  | Panic (gosec, _) => Panic gosec
  | Next (gosec, pkgs) => checkPackages gosec pkgs
  end.

(** *** Notions used to state the properties *)

(** A rule code as the pattern of the source reads it: the letter G and
    three decimal digits. *)
Definition RuleID (c : string) : Prop :=
  exists d1 d2 d3,
    isDigit d1 = true /\ isDigit d2 = true /\ isDigit d3 = true /\
    c = String "G" (String d1 (String d2 (String d3 EmptyString))).

(** [s] holds no code: however it is cut in three, the middle part is not
    a code. *)
Definition codeFree (s : string) : Prop :=
  forall pre c post, RuleID c -> s <> pre +:+ c +:+ post.

(** A code starts at some position of [s]; decides [codeFree]. *)
Fixpoint hasCode (s : string) : bool :=
  match matchRuleID s with
  | Some _ => true
  | None =>
      match s with
      | EmptyString => false
      | String _ r => hasCode r
      end
  end.

(** [s] does not begin with a digit. *)
Definition noLeadingDigit (s : string) : Prop :=
  match s with
  | String d _ => isDigit d = false
  | EmptyString => True
  end.

(** A text laid out as codes, each followed by a gap. *)
Fixpoint layout (items : list (string * string)) : string :=
  match items with
  | [] => EmptyString
  | (c, gap) :: rest => c +:+ gap +:+ layout rest
  end.

(** [NumNosec++], [NumFound++] *)
Definition plusplus (x : Z) : Z := GoInt.wrap (x + 1).

(** The loop of [ignore] finds the marker on the node: the comment map has
    the node, the nosec switch is off, and some group holds the marker. *)
Definition nosecFound (gosec : Analyzer) (n : Node) : bool :=
  match Comments (context gosec) !! addr n with
  | Some groups =>
      negb (ignoreNosec gosec) && existsb (fun c => Contains c "#nosec") groups
  | None => false
  end.

(** The exclusion set [Visit] computes on entering [n]. *)
Definition activeSet (gosec : Analyzer) (n : Node) : gmap string bool :=
  unionIgnores (Ignores (context gosec)) (ignore gosec n).1.1.

(** The rules of the list that the dispatch loop does not skip. *)
Definition dispatched (ignores : gmap string bool) (rules : list Rule) : list Rule :=
  filter (fun r => ignores !! ID r = None) rules.

(** What a walk never touches. *)
Definition frame (g g' : Analyzer) : Prop :=
  ignoreNosec g' = ignoreNosec g /\ ruleset g' = ruleset g /\
  config g' = config g /\ errors g' = errors g /\
  Comments (context g') = Comments (context g) /\
  NumFiles (stats g') = NumFiles (stats g) /\
  NumLines (stats g') = NumLines (stats g).

(** The context [Visit] installs before the dispatch loop. *)
Definition enter (gosec : Analyzer) (n : Node) : Analyzer :=
  let g := (ignore gosec n).2 in
  set_context g
    (set_Imports
       (set_Ignores (context g) (activeSet gosec n :: Ignores (context g)))
       ((fun t => TrackImport t n) <$> Imports (context g))).

(** The exclusion sets a list of events pushed, as sets of rule codes (the
    dispatch loop asks only whether a code is a key of the map). *)
Definition pushed (evs : list Event) : list (nat * gset string) :=
  omap (fun e => match e with
                 | EvScope a ignores => Some (a, dom ignores)
                 | EvMatch _ _ => None
                 end) evs.

(** The set on top of the stack; no set when the stack is empty. *)
Definition topSet (stack : list (gmap string bool)) : gset string :=
  match stack with
  | top :: _ => dom top
  | [] => ∅
  end.

(** The active sets as the specification gives them, in the order of the
    walk: the set of a node is the set of its parent united with the codes
    of its own directive, it is the parent set of its children, and nothing
    is computed at or below a node whose directive is exclude-all.  The
    directive of a node is what [ignore] returns for it. *)
Fixpoint activeSets (gosec : Analyzer) (parent : gset string) (n : Node)
  : list (nat * gset string) :=
  match n with
  | MkNode a k cs =>
      if (ignore gosec (MkNode a k cs)).1.2 then []
      else
        let active := parent ∪ list_to_set (ignore gosec (MkNode a k cs)).1.1 in
        (a, active) :: flat_map (activeSets gosec active) cs
  end.

(** The active set of the node reached from [n] by a path of child
    indices, by the same rule. *)
Fixpoint activeAt (gosec : Analyzer) (parent : gset string) (n : Node)
    (path : list nat) : option (gset string) :=
  if (ignore gosec n).1.2 then None
  else
    let active := parent ∪ list_to_set (ignore gosec n).1.1 in
    match path with
    | [] => Some active
    | i :: path' =>
        match children n !! i with
        | Some c => activeAt gosec active c path'
        | None => None
        end
    end.

(** The node a path of child indices leads to. *)
Fixpoint nodeAt (n : Node) (path : list nat) : option Node :=
  match path with
  | [] => Some n
  | i :: path' =>
      match children n !! i with
      | Some c => nodeAt c path'
      | None => None
      end
  end.

(** The number of directives a walk of [n] meets: one for every node at
    which [ignore] finds the marker, the nodes below an exclude-all node
    not being visited. *)
Fixpoint directivesMet (gosec : Analyzer) (n : Node) : nat :=
  match n with
  | MkNode a k cs =>
      ((if nosecFound gosec (MkNode a k cs) then 1 else 0) +
       (if (ignore gosec (MkNode a k cs)).1.2 then 0
        else sum_list (directivesMet gosec <$> cs)))%nat
  end.

(** What a walk from state [(g, ev)] leaves behind, [gosec] being a state
    with the same comment map and switch: nothing of the frame is touched,
    the stack of exclusion sets is restored, the pushed sets are [sets], and
    [NumNosec] was incremented [met] times. *)
Definition walkSpec (gosec g : Analyzer) (ev : list Event)
    (r : Analyzer * list Event) (sets : list (nat * gset string)) (met : nat) : Prop :=
  frame gosec r.1 /\
  Ignores (context r.1) = Ignores (context g) /\
  (exists new, r.2 = ev ++ new /\ pushed new = sets) /\
  NumNosec (stats r.1) = Nat.iter met plusplus (NumNosec (stats g)).

(** The rules one entry of the table adds to the category of [n]. *)
Definition contributes (conf : gosec_Config) (n : Node)
    (entry : string * RuleBuilder) : list Rule :=
  let '(r, nodes) := entry.2 entry.1 conf in
  (fun _ => r) <$> filter (fun t => t = kind n) nodes.

(** Strictly ascending [(line, column)] order. *)
Definition strictlyBefore (e1 e2 : Error) : Prop :=
  Line e1 < Line e2 \/ (Line e1 = Line e2 /\ Column e1 < Column e2).

(** Two analyzers that differ at most in what was logged. *)
Definition sameButLogger (g g' : Analyzer) : Prop :=
  ignoreNosec g = ignoreNosec g' /\ ruleset g = ruleset g' /\
  context g = context g' /\ config g = config g' /\
  issues g = issues g' /\ stats g = stats g' /\ errors g = errors g'.

(** Two runs ended the same way, in related states. *)
Definition flowRel {A : Type} (R : A -> A -> Prop) (f f' : Flow A) : Prop :=
  outcome f = outcome f' /\ R (flowState f) (flowState f').

(** Visitor states and loader states that differ at most in the log. *)
Definition sameVisitor (st st' : Analyzer * list Event) : Prop :=
  sameButLogger st.1 st'.1 /\ st.2 = st'.2.

Definition sameLoaded (st st' : Analyzer * list Package) : Prop :=
  sameButLogger st.1 st'.1 /\ st.2 = st'.2.

(** The path does not exist: [GetPkgAbsPath] returns an error. *)
Definition missing (ld : Loader) (p : string) : Prop :=
  is_Some (GetPkgAbsPath ld p).2.

(** The path exists and the loader returns its packages without error. *)
Definition loadsFine (ld : Loader) (p : string) : Prop :=
  (GetPkgAbsPath ld p).2 = None /\
  (ImportDir ld p).2 = None /\
  (packages_Load ld (map (fun filename => path_Join p filename) (ImportDir ld p).1)).2 = None.

(** The path exists and the loader fails on it with [err], in
    [ImportDir] or in [packages.Load]. *)
Definition loadFails (ld : Loader) (p : string) (err : error) : Prop :=
  (GetPkgAbsPath ld p).2 = None /\
  ((ImportDir ld p).2 = Some err \/
   ((ImportDir ld p).2 = None /\
    (packages_Load ld (map (fun filename => path_Join p filename) (ImportDir ld p).1)).2
    = Some err)).

(** Everything [g] logged is still the beginning of the log of [g']. *)
Definition logsExtend (g g' : Analyzer) : Prop :=
  logOutput (logger g) `prefix_of` logOutput (logger g').

(** What [Process] does with the result of its first loop. *)
Definition afterLoading (f : Flow (Analyzer * list Package)) : Flow Analyzer :=
  match f with
  | Return (gosec, _) err => Return gosec err
  | Panic (gosec, _) => Panic gosec
  | Next (gosec, pkgs) => checkPackages gosec pkgs
  end.

(** *** Notions used to state further properties *)

(** The issue counter agrees with the issue list (as a Go [int]). *)
Definition foundMatchesIssues (g : Analyzer) : Prop :=
  NumFound (stats g) = GoInt.wrap (Z.of_nat (length (issues g))).

(** The log line the dispatch loop writes for a rule, if its [Match]
    returns an error. *)
Definition ruleErrorLine (n : Node) (ctx : Context) (rule : Rule) : option LogLine :=
  match (Match rule n ctx).2 with
  | Some err =>
      let '(file, line) := GetLocation n (FileSet ctx) in
      Some (LogRuleError (ruleType rule) err (path_Base file) line)
  | None => None
  end.

(** The nodes of a tree in the order [ast.Walk] enters them. *)
Fixpoint preorder (n : Node) : list nat :=
  match n with
  | MkNode a _ cs => a :: flat_map preorder cs
  end.

(** [s] holds no colon. *)
Fixpoint noColon (s : string) : bool :=
  match s with
  | EmptyString => true
  | String c r => negb (Ascii.eqb c ":") && noColon r
  end.

(** The text before the first colon of [s]. *)
Fixpoint firstField (s : string) : string :=
  match s with
  | EmptyString => EmptyString
  | String c r => if Ascii.eqb c ":" then EmptyString else String c (firstField r)
  end.

(** The files of the packages, in the order [Process] walks them. *)
Definition filesOf (pkgs : list Package) : list File :=
  flat_map Syntax pkgs.

(** Every file keeps its errors, in order, at the head of its list. *)
Definition keepsErrors (errs errs' : gmap string (list Error)) : Prop :=
  forall file l, errs !! file = Some l ->
                 exists l', errs' !! file = Some l' /\ l `prefix_of` l'.

(** The analyzer reading the comment map of a file. *)
Definition withComments (g : Analyzer) (comments : CommentMap) : Analyzer :=
  set_context g
    {| FileSet := FileSet (context g); Comments := comments;
       Info := Info (context g); Pkg := Pkg (context g);
       PkgFiles := PkgFiles (context g); Root := Root (context g);
       Config := Config (context g); Imports := Imports (context g);
       Ignores := Ignores (context g) |}.

(** The directives met in walking the files, each file read with its own
    comment map. *)
Definition directivesIn (g : Analyzer) (files : list File) : nat :=
  sum_list ((fun file => directivesMet (withComments g (fileComments file))
                                       (fileRoot file)) <$> files).

(** The packages the first loop of [Process] has loaded when it ends. *)
Definition loadedPackages (ld : Loader) (gosec : Analyzer) (packagePaths : list string)
  : list Package :=
  (flowState (forRange (loadPath ld) (gosec, []) packagePaths)).2.

End Gosec.

(** ** A concrete environment for the worked examples

    Issues are the pair of the rule code and the node it was found on; the
    opaque data is trivial. *)

Fixpoint trimLeft (s : string) : string :=
  match s with
  | String c r => if Ascii.eqb c " " then trimLeft r else s
  | EmptyString => EmptyString
  end.

Definition exEnv : GoEnv :=
  {| gosec_Issue := string * nat;
     gosec_Config := unit;
     token_FileSet := unit;
     types_Info := unit;
     types_Package := unit;
     gosec_ImportTracker := unit;
     IsGlobalEnabledNosec := fun _ => (false, None);
     NewImportTracker := tt;
     TrackPackages := fun t _ => t;
     TrackImport := fun t _ => t;
     GetLocation := fun n _ => ("/src/a.go", Z.of_nat (addr n));
     path_Base := fun _ => "a.go";
     path_Join := fun dir file => dir +:+ "/" +:+ file;
     strings_TrimSpace := fun s => String.rev (trimLeft (String.rev (trimLeft s))) |}.

Section ExampleData.

#[local] Existing Instance exEnv.

(** A rule that reports every node it is called on. *)
Definition exRule (id : string) : Rule :=
  {| ID := id; Match := fun n _ => (Some (id, addr n), None); ruleType := "*rules.example" |}.

Definition exBuilder (nodes : list string) : RuleBuilder :=
  fun id _ => (exRule id, nodes).

(** A table of two rules, both on call expressions. *)
Definition exTable : gmap string RuleBuilder :=
  <["G101" := exBuilder ["*ast.CallExpr"]]>
    (<["G102" := exBuilder ["*ast.CallExpr"]]> ∅).

Definition exInOrder : list (string * RuleBuilder) :=
  [("G101", exBuilder ["*ast.CallExpr"]); ("G102", exBuilder ["*ast.CallExpr"])].

Definition exReversed : list (string * RuleBuilder) :=
  [("G102", exBuilder ["*ast.CallExpr"]); ("G101", exBuilder ["*ast.CallExpr"])].

(** A file [f() + 1]-like: a call (node 1) holding a binary expression
    (node 2), the call carrying the comment [comment]. *)
Definition exBinary : Node := MkNode 2 "*ast.BinaryExpr" [].
Definition exCall : Node := MkNode 1 "*ast.CallExpr" [exBinary].
Definition exRoot : Node := MkNode 0 "*ast.File" [exCall].

Definition exFile (comment : string) : File :=
  {| fileName := "a.go"; fileLineCount := 12; fileRoot := exRoot;
     fileComments := {[ 1%nat := [comment] ]} |}.

(** An analyzer with rule G101 on call expressions and rule G102 on binary
    expressions, about to walk [exFile comment]. *)
Definition exAnalyzer (off : bool) (comment : string) : Analyzer :=
  let g := NewAnalyzer tt None in
  let g := LoadRulesIn [("G101", exBuilder ["*ast.CallExpr"]);
                        ("G102", exBuilder ["*ast.BinaryExpr"])] g in
  {| ignoreNosec := off; ruleset := ruleset g;
     context := {| FileSet := Some tt; Comments := fileComments (exFile comment);
                   Info := None; Pkg := None; PkgFiles := [exFile comment];
                   Root := Some (exFile comment); Config := Some tt;
                   Imports := Some tt; Ignores := [] |};
     config := config g; logger := logger g; issues := issues g;
     stats := stats g; errors := errors g |}.

Definition exPackage (name : string) (errs : list string) : Package :=
  {| Name := name; Errors := errs; Syntax := [exFile "#nosec G101"];
     Fset := tt; TypesInfo := None; Types := None |}.

(** A loader that knows the directories [good] (one package), [typo] (a
    package and its test variant, both reporting the same type error) and
    [broken] (the import fails); every other path does not exist. *)
Definition exLoader : Loader :=
  {| GetPkgAbsPath := fun p =>
       if String.eqb p "good" || String.eqb p "typo" || String.eqb p "broken"
       then ("/src/" +:+ p, None)
       else ("", Some (OtherError "no project absolute path found"));
     ImportDir := fun p =>
       if String.eqb p "broken" then ([], Some (OtherError "no buildable Go source files"))
       else (["a.go"], None);
     packages_Load := fun files =>
       match files with
       | ["typo/a.go"] =>
           ([exPackage "typo" ["a.go:10:4: undeclared name: x"];
             exPackage "typo_test" ["a.go:10:4: undeclared name: x"]], None)
       | _ => ([exPackage "good" []], None)
       end |}.

Definition exStart : Analyzer :=
  LoadRulesIn [("G101", exBuilder ["*ast.CallExpr"]);
               ("G102", exBuilder ["*ast.BinaryExpr"])] (NewAnalyzer tt None).

(** A rule whose [Match] always fails. *)
Definition exFailing (id : string) : Rule :=
  {| ID := id; Match := fun _ _ => (None, Some (OtherError "no type information"));
     ruleType := "*rules.failing" |}.

(** An analyzer like [exAnalyzer], with a failing rule G103 registered on
    call expressions between G101 and a second reporting rule G104. *)
Definition exAnalyzerFailing (comment : string) : Analyzer :=
  set_ruleset (exAnalyzer false comment)
    (Register
       (Register (ruleset (exAnalyzer false comment)) (exFailing "G103") ["*ast.CallExpr"])
       (exRule "G104") ["*ast.CallExpr"]).

End ExampleData.

(** * Properties *)

(** ** Arithmetic of Go [int] *)

Lemma wrap_in_range z : GoInt.in_range (GoInt.wrap z).
Proof.
  unfold GoInt.in_range, GoInt.wrap, GoInt.int_min, GoInt.int_max.
  pose proof (Z.mod_pos_bound (z + 2 ^ 63) (2 ^ 64) ltac:(lia)). lia.
Qed.

Lemma wrap_small z : GoInt.in_range z -> GoInt.wrap z = z.
Proof.
  unfold GoInt.in_range, GoInt.wrap, GoInt.int_min, GoInt.int_max. intros Hz.
  rewrite Z.mod_small by lia. lia.
Qed.

(** Without overflow, [k] increments add [k]. *)
Lemma iter_increment k x :
  GoInt.in_range x -> GoInt.in_range (x + Z.of_nat k) ->
  Nat.iter k (fun y => GoInt.wrap (y + 1)) x = x + Z.of_nat k.
Proof.
  intros Hx. induction k as [|k IH]; intros Hk; [cbn; lia|].
  rewrite Nat.iter_succ.
  assert (Hk' : GoInt.in_range (x + Z.of_nat k)).
  { unfold GoInt.in_range in *. lia. }
  rewrite (IH Hk'), wrap_small; [lia|].
  replace (x + Z.of_nat k + 1) with (x + Z.of_nat (S k)) by lia. exact Hk.
Qed.

(** ** Trees *)

Lemma Node_ind_children (P : Node -> Prop) :
  (forall a k cs, Forall P cs -> P (MkNode a k cs)) -> forall n, P n.
Proof.
  intros step. fix IH 1. intros [a k cs]. apply step.
  induction cs as [|c cs IHcs]; constructor; [apply IH | exact IHcs].
Qed.

Lemma Walk_unfold {V : Type} (visit : V -> option Node -> V * bool) v a k cs :
  Walk visit v (MkNode a k cs) =
  let '(w, more) := visit v (Some (MkNode a k cs)) in
  if more then fst (visit (fold_left (Walk visit) cs w) None) else w.
Proof. reflexivity. Qed.

(** A property of the visitor state that [Visit] keeps is kept by the walk. *)
Lemma Walk_preserves {V : Type} (visit : V -> option Node -> V * bool)
    (P : V -> Prop) :
  (forall v n, P v -> P (visit v n).1) ->
  forall n v, P v -> P (Walk visit v n).
Proof.
  intros keep. induction n as [a k cs IH] using Node_ind_children.
  intros v Hv. rewrite Walk_unfold.
  pose proof (keep v (Some (MkNode a k cs)) Hv) as H1.
  destruct (visit v (Some (MkNode a k cs))) as [w more]; simpl in H1.
  destruct more; [|exact H1].
  apply keep. clear Hv. revert w H1.
  induction IH as [|c cs Hc _ IHcs]; intros w Hw; simpl; [exact Hw|].
  apply IHcs, Hc, Hw.
Qed.

Section GosecFacts.

Context `{Env : GoEnv}.

(** ** [Reset] and [Report] *)

(** C9: in any analyzer state, [Reset()] followed by [Report()] yields an
    empty issue sequence and metrics whose four counters are all zero. *)
Theorem Reset_Report_empty (gosec : Analyzer) :
  (Report (Reset gosec)).1.1 = [] /\
  NumFiles (Report (Reset gosec)).1.2 = 0 /\
  NumLines (Report (Reset gosec)).1.2 = 0 /\
  NumNosec (Report (Reset gosec)).1.2 = 0 /\
  NumFound (Report (Reset gosec)).1.2 = 0.
Proof.
  unfold Report, Reset; cbn [fst snd issues stats].
  unfold emptyMetrics; cbn. repeat split.
Qed.

(** C10: [Reset()] replaces the context, the issue list and the metrics and
    nothing else: the error map [Report()] returns after [Reset()] is the
    one it returned before, and the configuration, the logger, the rule set
    (and the nosec switch) are unchanged. *)
Theorem Reset_frame (gosec : Analyzer) :
  (Report (Reset gosec)).2 = (Report gosec).2 /\
  errors (Reset gosec) = errors gosec /\
  config (Reset gosec) = config gosec /\
  logger (Reset gosec) = logger gosec /\
  ruleset (Reset gosec) = ruleset gosec /\
  ignoreNosec (Reset gosec) = ignoreNosec gosec /\
  context (Reset gosec) = emptyContext /\
  issues (Reset gosec) = [] /\
  stats (Reset gosec) = emptyMetrics.
Proof.
  unfold Report, Reset; cbn [snd errors config logger ruleset ignoreNosec
    context issues stats].
  repeat split.
Qed.

(** ** The directive parser *)

Lemma append_cons x (a b : string) : String x a +:+ b = String x (a +:+ b).
Proof. reflexivity. Qed.

Lemma append_nil_r (a : string) : a +:+ EmptyString = a.
Proof. induction a as [|x a IH]; [done|]. by rewrite append_cons, IH. Qed.

Lemma append_assoc (a b c : string) : (a +:+ b) +:+ c = a +:+ (b +:+ c).
Proof. induction a as [|x a IH]; [done|]. by rewrite !append_cons, IH. Qed.

Lemma append_nil_l (a : string) : EmptyString +:+ a = a.
Proof. reflexivity. Qed.

Lemma prefix_append (m r : string) : String.prefix m (m +:+ r) = true.
Proof.
  induction m as [|a m IH]; simpl; [destruct r; reflexivity|].
  destruct (ascii_dec a a); [exact IH|congruence].
Qed.

Lemma matchRuleID_Some s m :
  matchRuleID s = Some m -> RuleID m /\ String.prefix m s = true.
Proof.
  destruct s as [|g [|d1 [|d2 [|d3 r]]]]; simpl; try discriminate.
  destruct (Ascii.eqb g "G") eqn:Hg; simpl; [|discriminate].
  destruct (isDigit d1) eqn:H1; simpl; [|discriminate].
  destruct (isDigit d2) eqn:H2; simpl; [|discriminate].
  destruct (isDigit d3) eqn:H3; simpl; [|discriminate].
  intros [= <-]. apply Ascii.eqb_eq in Hg as ->. split.
  - exists d1, d2, d3. auto.
  - apply (prefix_append (String "G" (String d1 (String d2 (String d3 EmptyString)))) r).
Qed.

Lemma findAll_code c t :
  RuleID c ->
  FindAllStringSubmatch (c +:+ t) = [c; c] :: FindAllStringSubmatch t.
Proof.
  intros (d1 & d2 & d3 & H1 & H2 & H3 & ->).
  unfold FindAllStringSubmatch. simpl. rewrite H1, H2, H3. simpl.
  destruct t; reflexivity.
Qed.

Lemma matchRuleID_code c r : RuleID c -> matchRuleID (c +:+ r) = Some c.
Proof.
  intros (d1 & d2 & d3 & H1 & H2 & H3 & ->).
  rewrite !append_cons, append_nil_l. cbn [matchRuleID].
  rewrite H1, H2, H3. reflexivity.
Qed.

Lemma matchRuleID_split s m :
  matchRuleID s = Some m -> RuleID m /\ exists r, s = m +:+ r.
Proof.
  destruct s as [|g [|d1 [|d2 [|d3 r]]]]; cbn [matchRuleID]; try discriminate.
  destruct (Ascii.eqb g "G") eqn:Hg; cbn [andb]; [|discriminate].
  destruct (isDigit d1) eqn:H1; cbn [andb]; [|discriminate].
  destruct (isDigit d2) eqn:H2; cbn [andb]; [|discriminate].
  destruct (isDigit d3) eqn:H3; cbn [andb]; [|discriminate].
  intros [= <-]. apply Ascii.eqb_eq in Hg as ->. split.
  - exists d1, d2, d3. auto.
  - exists r. by rewrite !append_cons, append_nil_l.
Qed.

Lemma RuleID_not_empty c : RuleID c -> exists r, c = String "G" r.
Proof. intros (d1 & d2 & d3 & _ & _ & _ & ->). eauto. Qed.

Lemma codeFree_empty : codeFree EmptyString.
Proof.
  intros pre c post [r ->]%RuleID_not_empty.
  destruct pre; rewrite ?append_cons, ?append_nil_l; discriminate.
Qed.

Lemma codeFree_tail a s : codeFree (String a s) -> codeFree s.
Proof.
  intros H pre c post Hc ->. apply (H (String a pre) c post Hc).
  by rewrite append_cons.
Qed.

(** A code-free text in front of a text that does not begin with a digit
    holds no match and hides none. *)
Lemma findAll_codeFree lead t :
  codeFree lead -> noLeadingDigit t ->
  FindAllStringSubmatch (lead +:+ t) = FindAllStringSubmatch t.
Proof.
  unfold FindAllStringSubmatch.
  induction lead as [|a l1 IH]; intros Hfree Ht; [done|].
  rewrite append_cons. cbn [findAllFrom].
  destruct (matchRuleID (String a (l1 +:+ t))) as [m|] eqn:Hm;
    [exfalso|by apply IH; [eapply codeFree_tail|]].
  apply matchRuleID_split in Hm as [Hid [r Hs]].
  pose proof Hid as (d1 & d2 & d3 & H1 & H2 & H3 & ->).
  rewrite !append_cons, append_nil_l in Hs. injection Hs as -> Hs.
  destruct l1 as [|x [|y [|z l2]]];
    rewrite ?append_cons, ?append_nil_l in Hs.
  - subst t. cbn in Ht. congruence.
  - injection Hs as -> ->. cbn in Ht. congruence.
  - injection Hs as -> -> ->. cbn in Ht. congruence.
  - injection Hs as -> -> -> _.
    apply (Hfree EmptyString _ l2 Hid).
    by rewrite append_nil_l, !append_cons, append_nil_l.
Qed.

Lemma layout_noLeadingDigit items :
  Forall (fun it => RuleID it.1 /\ codeFree it.2) items ->
  noLeadingDigit (layout items).
Proof.
  destruct 1 as [|[c gap] items [Hc _] _]; [done|].
  cbn [fst] in Hc. apply RuleID_not_empty in Hc as [r ->].
  cbn [layout]. by rewrite append_cons.
Qed.

(** The matches of a text laid out as codes between code-free texts are
    its codes, in order. *)
Lemma findAll_layout lead items :
  codeFree lead ->
  Forall (fun it => RuleID it.1 /\ codeFree it.2) items ->
  FindAllStringSubmatch (lead +:+ layout items) = (fun it => [it.1; it.1]) <$> items.
Proof.
  intros Hlead Hitems. revert lead Hlead.
  induction Hitems as [|[c gap] items [Hc Hgap] Hrest IH]; intros lead Hlead.
  - rewrite findAll_codeFree by done. reflexivity.
  - rewrite findAll_codeFree;
      [|done|by apply layout_noLeadingDigit; constructor].
    cbn [layout fmap list_fmap fst snd]. rewrite findAll_code by exact Hc.
    f_equal. by apply IH.
Qed.

Lemma findAll_none s : codeFree s -> FindAllStringSubmatch s = [].
Proof.
  intros Hs. rewrite <- (append_nil_r s).
  exact (findAll_layout s [] Hs (Forall_nil_2 _)).
Qed.

Lemma hasCode_cons a r :
  hasCode (String a r) =
  match matchRuleID (String a r) with Some _ => true | None => hasCode r end.
Proof. reflexivity. Qed.

Lemma hasCode_codeFree s : hasCode s = false -> codeFree s.
Proof.
  induction s as [|a r IH]; [intros _; apply codeFree_empty|].
  rewrite hasCode_cons.
  destruct (matchRuleID (String a r)) as [m|] eqn:Hm; [discriminate|].
  intros Hr pre c post Hc Hs. destruct pre as [|b pre].
  - rewrite append_nil_l in Hs. rewrite Hs, (matchRuleID_code c post Hc) in Hm.
    discriminate.
  - rewrite append_cons in Hs. injection Hs as -> Hs.
    exact (IH Hr pre c post Hc Hs).
Qed.

(** Every text is laid out as codes between code-free texts. *)
Lemma layout_exists n :
  forall s, (String.length s <= n)%nat ->
    exists lead items,
      s = lead +:+ layout items /\ codeFree lead /\
      Forall (fun it => RuleID it.1 /\ codeFree it.2) items.
Proof.
  induction n as [|n IH]; intros s Hn.
  - destruct s; [|cbn in Hn; lia].
    exists EmptyString, []. repeat split; [apply codeFree_empty|constructor].
  - destruct s as [|a r].
    { exists EmptyString, []. repeat split; [apply codeFree_empty|constructor]. }
    destruct (matchRuleID (String a r)) as [m|] eqn:Hm.
    + pose proof Hm as [Hid [r' Hs]]%matchRuleID_split.
      assert (Hlen : (String.length r' <= n)%nat).
      { pose proof Hid as (d1 & d2 & d3 & _ & _ & _ & ->).
        rewrite Hs, !append_cons, append_nil_l in Hn. cbn in Hn. lia. }
      destruct (IH r' Hlen) as (lead' & items' & -> & Hlead' & Hitems').
      exists EmptyString, ((m, lead') :: items').
      split; [by rewrite Hs, append_nil_l|].
      split; [apply codeFree_empty|]. by constructor.
    + assert (Hlen : (String.length r <= n)%nat) by (cbn in Hn; lia).
      destruct (IH r Hlen) as (lead' & items' & -> & Hlead' & Hitems').
      exists (String a lead'), items'. split; [by rewrite append_cons|].
      split; [|done].
      intros pre c post Hc Hs. destruct pre as [|b pre].
      * rewrite append_nil_l in Hs.
        rewrite <- append_cons, Hs, append_assoc, (matchRuleID_code c _ Hc) in Hm.
        discriminate.
      * rewrite append_cons in Hs. injection Hs as -> Hs.
        exact (Hlead' pre c post Hc Hs).
Qed.

Lemma ignoreGroups_first pre g post :
  Forall (fun c => Contains c "#nosec" = false) pre ->
  Contains g "#nosec" = true ->
  ignoreGroups (pre ++ g :: post) =
  Some (if (length (FindAllStringSubmatch g) =? 0)%nat then ([], true)
        else (map (fun v => nth 1 v "") (FindAllStringSubmatch g), false)).
Proof.
  intros Hpre Hg. induction Hpre as [|c pre Hc _ IH]; simpl.
  - rewrite Hg. destruct (length (FindAllStringSubmatch g) =? 0)%nat; reflexivity.
  - rewrite Hc. exact IH.
Qed.

Lemma ignoreGroups_none groups :
  Forall (fun c => Contains c "#nosec" = false) groups ->
  ignoreGroups groups = None.
Proof.
  induction 1 as [|c groups Hc _ IH]; simpl; [reflexivity|].
  rewrite Hc. exact IH.
Qed.

Lemma ignoreGroups_Some groups r :
  ignoreGroups groups = Some r ->
  existsb (fun c => Contains c "#nosec") groups = true.
Proof.
  induction groups as [|c groups IH]; simpl; [discriminate|].
  destruct (Contains c "#nosec"); [reflexivity|]. exact IH.
Qed.

Lemma ignoreGroups_None groups :
  ignoreGroups groups = None ->
  existsb (fun c => Contains c "#nosec") groups = false.
Proof.
  induction groups as [|c groups IH]; simpl; [reflexivity|].
  destruct (Contains c "#nosec"); [|exact IH].
  destruct (length (FindAllStringSubmatch c) =? 0)%nat; discriminate.
Qed.

(** C4 (amended): with the nosec switch off, the first comment group of the
    node that holds the marker decides.  Its text is, in one way or another,
    a sequence of codes of the form G-digit-digit-digit between texts that
    hold no such code (the marker sits in one of those texts), and every
    text is of that form.  When there is at least one code, [ignore]
    returns exactly the codes, in order, and [false]; when the text holds no
    code at all, [ignore] returns no code and [true]; when no group holds
    the marker (or the node has no comment), [ignore] returns no code and
    [false]. *)
Theorem ignore_directive (gosec : Analyzer) (n : Node) :
  ignoreNosec gosec = false ->
  (forall pre g post lead items,
      Comments (context gosec) !! addr n = Some (pre ++ g :: post) ->
      Forall (fun c => Contains c "#nosec" = false) pre ->
      Contains g "#nosec" = true ->
      g = lead +:+ layout items ->
      codeFree lead ->
      Forall (fun it => RuleID it.1 /\ codeFree it.2) items ->
      items <> [] ->
      (ignore gosec n).1 = (items.*1, false)) /\
  (forall pre g post,
      Comments (context gosec) !! addr n = Some (pre ++ g :: post) ->
      Forall (fun c => Contains c "#nosec" = false) pre ->
      Contains g "#nosec" = true ->
      codeFree g ->
      (ignore gosec n).1 = ([], true)) /\
  (forall g : string,
      exists lead items,
        g = lead +:+ layout items /\ codeFree lead /\
        Forall (fun it => RuleID it.1 /\ codeFree it.2) items) /\
  ((forall groups,
      Comments (context gosec) !! addr n = Some groups ->
      Forall (fun c => Contains c "#nosec" = false) groups) ->
   (ignore gosec n).1 = ([], false)).
Proof.
  intros Hoff. unfold ignore. rewrite Hoff. cbn [negb]. repeat split.
  - intros pre g post lead items Hcm Hpre Hg -> Hlead Hitems Hne.
    rewrite Hcm, (ignoreGroups_first _ _ _ Hpre Hg).
    rewrite (findAll_layout _ _ Hlead Hitems).
    destruct items as [|it items]; [congruence|]. cbn [fmap list_fmap length Nat.eqb fst].
    f_equal. cbn [map nth]. f_equal.
    clear. induction items as [|x items IH]; [reflexivity|].
    cbn [fmap list_fmap map nth] in *. f_equal. exact IH.
  - intros pre g post Hcm Hpre Hg Hnone.
    rewrite Hcm, (ignoreGroups_first _ _ _ Hpre Hg).
    rewrite (findAll_none _ Hnone). reflexivity.
  - intros g. exact (layout_exists (String.length g) g (Nat.le_refl _)).
  - intros Hall. destruct (Comments (context gosec) !! addr n) as [groups|]; [|reflexivity].
    rewrite (ignoreGroups_none _ (Hall _ eq_refl)). reflexivity.
Qed.

(** ** One visit *)

Lemma frame_refl g : frame g g.
Proof. unfold frame. repeat split. Qed.

Lemma frame_trans g1 g2 g3 : frame g1 g2 -> frame g2 g3 -> frame g1 g3.
Proof.
  unfold frame. intros (?&?&?&?&?&?&?) (?&?&?&?&?&?&?).
  repeat split; congruence.
Qed.

Lemma ignore_state gosec n :
  (ignore gosec n).2 =
  if nosecFound gosec n then set_stats gosec (incNosec (stats gosec)) else gosec.
Proof.
  unfold ignore, nosecFound.
  destruct (Comments (context gosec) !! addr n) as [groups|]; [|reflexivity].
  destruct (ignoreNosec gosec); cbn [negb andb]; [reflexivity|].
  destruct (ignoreGroups groups) as [[ig all]|] eqn:Hg.
  - rewrite (ignoreGroups_Some _ _ Hg). reflexivity.
  - rewrite (ignoreGroups_None _ Hg). reflexivity.
Qed.

Lemma ignore_all_found gosec n :
  (ignore gosec n).1.2 = true -> nosecFound gosec n = true.
Proof.
  unfold ignore, nosecFound.
  destruct (Comments (context gosec) !! addr n) as [groups|]; [|discriminate].
  destruct (ignoreNosec gosec); cbn [negb andb]; [discriminate|].
  destruct (ignoreGroups groups) as [[ig all]|] eqn:Hg; [|discriminate].
  intros _. exact (ignoreGroups_Some _ _ Hg).
Qed.

Lemma ignore_frame g g' n :
  frame g g' ->
  (ignore g' n).1 = (ignore g n).1 /\ nosecFound g' n = nosecFound g n.
Proof.
  intros (Hoff & _ & _ & _ & Hcm & _). unfold ignore, nosecFound.
  rewrite Hoff, Hcm.
  destruct (Comments (context g) !! addr n) as [groups|]; [|done].
  destruct (ignoreNosec g); cbn [negb andb]; [done|].
  destruct (ignoreGroups groups) as [[ig all]|]; done.
Qed.

Lemma frame_ignore gosec n : frame gosec (ignore gosec n).2.
Proof.
  rewrite ignore_state. destruct (nosecFound gosec n); [|apply frame_refl].
  unfold frame. repeat split.
Qed.

(** The dispatch loop: which rules it calls, and what it leaves behind. *)
Lemma runRules_spec n ignores rules g ev :
  let r := fold_left (runRule n ignores) rules (g, ev) in
  r.2 = ev ++ ((fun rule => EvMatch (ID rule) (addr n)) <$> dispatched ignores rules) /\
  issues r.1 = issues g ++
    omap (fun rule => (Match rule n (context g)).1) (dispatched ignores rules) /\
  context r.1 = context g /\ frame g r.1 /\
  NumNosec (stats r.1) = NumNosec (stats g) /\
  NumFound (stats r.1) =
    Nat.iter (length (omap (fun rule => (Match rule n (context g)).1)
                         (dispatched ignores rules)))
             plusplus (NumFound (stats g)).
Proof.
  revert g ev. unfold dispatched.
  induction rules as [|rule rules IH]; intros g ev; cbn zeta.
  - cbn. rewrite !app_nil_r. repeat split.
  - cbn [fold_left]. rewrite filter_cons.
    unfold runRule at 2 4 6 8 10 12.
    destruct (ignores !! ID rule) as [b|] eqn:Hig.
    + destruct (decide (Some b = None)) as [|_]; [discriminate|]. apply IH.
    + destruct (decide (@None bool = None)) as [_|]; [|done].
      destruct (Match rule n (context g)) as [issue err] eqn:Hm.
      match goal with |- context [fold_left _ rules (?g1, ?e1)] =>
        specialize (IH g1 e1); cbn zeta in IH;
        destruct IH as (Hev & His & Hctx & Hfr & Hns & Hnf);
        assert (Hc1 : context g1 = context g)
          by (destruct err as [e|], issue as [i|];
              try destruct (GetLocation n (FileSet (context g))); reflexivity);
        assert (Hf1 : frame g g1)
          by (destruct err as [e|], issue as [i|];
              try destruct (GetLocation n (FileSet (context g)));
              unfold frame; repeat split)
      end.
      rewrite Hc1 in His, Hnf, Hctx.
      rewrite Hev, His, Hnf, Hns, Hctx. cbn [fmap list_fmap omap list_omap].
      rewrite Hm. cbn [fst].
      split; [by rewrite <- app_assoc|].
      split; [destruct err as [e|], issue as [i|];
              try destruct (GetLocation n (FileSet (context g)));
              cbn; by rewrite <- ?app_assoc|].
      split; [done|].
      split; [eapply frame_trans; [exact Hf1|exact Hfr]|].
      split; [destruct err as [e|], issue as [i|];
              try destruct (GetLocation n (FileSet (context g))); reflexivity|].
      destruct err as [e|], issue as [i|];
        try destruct (GetLocation n (FileSet (context g)));
        cbn [length]; rewrite ?Nat.iter_succ_r; reflexivity.
Qed.

Lemma ignore_context gosec n : context (ignore gosec n).2 = context gosec.
Proof. rewrite ignore_state. destruct (nosecFound gosec n); reflexivity. Qed.

Lemma Visit_Some gosec ev n :
  Visit (gosec, ev) (Some n) =
  if (ignore gosec n).1.2 then (((ignore gosec n).2, ev), false)
  else (fold_left (runRule n (activeSet gosec n))
          (RegisteredFor (ruleset gosec) n)
          (enter gosec n, ev ++ [EvScope (addr n) (activeSet gosec n)]),
        true).
Proof.
  unfold enter, activeSet. pose proof (ignore_context gosec n) as Hctx.
  pose proof (frame_ignore gosec n) as (_ & Hrs & _).
  unfold Visit. destruct (ignore gosec n) as [[ignoredRules ignoreAll] g].
  cbn [fst snd] in *. destruct ignoreAll; [reflexivity|].
  cbn [ruleset set_context]. rewrite Hrs, Hctx. reflexivity.
Qed.

Lemma Visit_None gosec ev :
  let r := Visit (gosec, ev) None in
  r.2 = true /\ r.1.2 = ev /\ frame gosec r.1.1 /\
  Ignores (context r.1.1) = drop 1 (Ignores (context gosec)) /\
  issues r.1.1 = issues gosec /\ stats r.1.1 = stats gosec.
Proof.
  cbn zeta. unfold Visit.
  destruct (Ignores (context gosec)) as [|top stack] eqn:Hst; cbn.
  - rewrite Hst. repeat split.
  - repeat split.
Qed.

(** C3: for every node and every rule registered for the node's category,
    if the rule's identifier is in the exclusion set active at the node, the
    visit of the node does not call the rule's [Match] and the issues it
    appends all come from the calls of other rules. *)
Theorem Visit_skips_excluded (gosec : Analyzer) (ev : list Event) (n : Node) (R : Rule) :
  R ∈ RegisteredFor (ruleset gosec) n ->
  is_Some (activeSet gosec n !! ID R) ->
  exists (new : list Event) (invoked : list Rule),
    (Visit (gosec, ev) (Some n)).1.2 = ev ++ new /\
    (EvMatch (ID R) (addr n) ∉ new) /\
    issues (Visit (gosec, ev) (Some n)).1.1 =
      issues gosec ++
      omap (fun rule => (Match rule n (context (Visit (gosec, ev) (Some n)).1.1)).1)
           invoked /\
    (invoked ⊆ RegisteredFor (ruleset gosec) n) /\
    (forall rule, rule ∈ invoked -> ID rule <> ID R) /\
    R ∉ invoked.
Proof.
  intros HR [b Hb]. rewrite Visit_Some.
  destruct ((ignore gosec n).1.2) eqn:Hall.
  - exists [], []. cbn [fst snd]. rewrite !app_nil_r.
    rewrite ignore_state. pose proof (ignore_all_found _ _ Hall) as ->.
    repeat split; try set_solver.
  - pose proof (runRules_spec n (activeSet gosec n)
                  (RegisteredFor (ruleset gosec) n) (enter gosec n)
                  (ev ++ [EvScope (addr n) (activeSet gosec n)])) as Hspec.
    cbn zeta in Hspec. destruct Hspec as (Hev & His & Hctx & _).
    set (invoked := dispatched (activeSet gosec n) (RegisteredFor (ruleset gosec) n)) in *.
    assert (Hinv : forall rule, rule ∈ invoked -> ID rule <> ID R).
    { intros rule [Hnone _]%list_elem_of_filter Heq. congruence. }
    exists (EvScope (addr n) (activeSet gosec n) ::
            ((fun rule => EvMatch (ID rule) (addr n)) <$> invoked)), invoked.
    cbn [fst snd]. rewrite Hev, His, Hctx, <- app_assoc.
    split; [reflexivity|]. split.
    { intros [Hbad|Hbad]%elem_of_cons; [discriminate|].
      apply list_elem_of_fmap in Hbad as (rule & Heq & Hin).
      injection Heq as Heq. exact (Hinv rule Hin (eq_sym Heq)). }
    split.
    { f_equal. unfold enter. cbn [issues set_context].
      rewrite ignore_state. destruct (nosecFound gosec n); reflexivity. }
    split; [intros rule [_ Hin]%list_elem_of_filter; exact Hin|].
    split; [exact Hinv|].
    intros Hin. exact (Hinv R Hin eq_refl).
Qed.

(** C2: when the directive of a node is exclude-all ([ignore] returns
    [true] for it), walking the node calls no rule for it or below it, enters
    no scope, and records no issue: the walk returns with the events and the
    issues it started from, whatever directives the descendants carry. *)
Theorem Walk_exclude_all (gosec : Analyzer) (ev : list Event) (n : Node) :
  (ignore gosec n).1.2 = true ->
  (WalkAnalyzer (gosec, ev) n).2 = ev /\
  issues (WalkAnalyzer (gosec, ev) n).1 = issues gosec /\
  NumFound (stats (WalkAnalyzer (gosec, ev) n).1) = NumFound (stats gosec) /\
  context (WalkAnalyzer (gosec, ev) n).1 = context gosec /\
  WalkAnalyzer (gosec, ev) n = (set_stats gosec (incNosec (stats gosec)), ev).
Proof.
  intros Hall. unfold WalkAnalyzer. destruct n as [a k cs].
  rewrite Walk_unfold, Visit_Some, Hall, ignore_state.
  rewrite (ignore_all_found _ _ Hall). repeat split.
Qed.

(** ** The walk of a tree *)

Lemma pushed_app evs1 evs2 : pushed (evs1 ++ evs2) = pushed evs1 ++ pushed evs2.
Proof. apply omap_app. Qed.

Lemma pushed_matches (f : Rule -> Event) rules :
  (forall r, exists id a, f r = EvMatch id a) -> pushed (f <$> rules) = [].
Proof.
  intros Hf. induction rules as [|r rules IH]; [reflexivity|].
  cbn. destruct (Hf r) as (id & a & ->). exact IH.
Qed.

Lemma dom_unionIgnores stack l :
  dom (unionIgnores stack l) = topSet stack ∪ list_to_set l.
Proof.
  unfold unionIgnores.
  assert (Hfold : forall m : gmap string bool,
             dom (fold_left (fun ignores v => <[v:=true]> ignores) l m)
             = dom m ∪ list_to_set l).
  { induction l as [|v l IH]; intros m; cbn [fold_left].
    - set_solver.
    - rewrite IH, dom_insert_L. set_solver. }
  rewrite Hfold. destruct stack as [|top stack]; cbn [topSet].
  - by rewrite dom_empty_L.
  - by rewrite list_to_map_to_list.
Qed.

Lemma Walk_children_spec gosec cs :
  Forall (fun c => forall g ev, frame gosec g ->
            walkSpec gosec g ev (WalkAnalyzer (g, ev) c)
              (activeSets gosec (topSet (Ignores (context g))) c)
              (directivesMet gosec c)) cs ->
  forall g ev, frame gosec g ->
    walkSpec gosec g ev (fold_left (Walk Visit) cs (g, ev))
      (flat_map (activeSets gosec (topSet (Ignores (context g)))) cs)
      (sum_list (directivesMet gosec <$> cs)).
Proof.
  induction 1 as [|c cs Hc _ IH]; intros g ev Hfr.
  - cbn. unfold walkSpec. cbn. split; [exact Hfr|]. split; [reflexivity|].
    split; [|reflexivity]. exists []. by rewrite app_nil_r.
  - cbn [fold_left flat_map fmap list_fmap sum_list sum_list_with].
    specialize (Hc g ev Hfr). unfold WalkAnalyzer in Hc.
    destruct (Walk Visit (g, ev) c) as [g1 ev1].
    destruct Hc as (Hfr1 & Hst1 & (new1 & Hev1 & Hp1) & Hn1). cbn [fst snd] in *.
    specialize (IH g1 ev1 Hfr1).
    destruct IH as (Hfr2 & Hst2 & (new2 & Hev2 & Hp2) & Hn2).
    unfold walkSpec. split; [exact Hfr2|]. split; [congruence|]. split.
    + exists (new1 ++ new2). rewrite Hev2, Hev1, <- app_assoc, pushed_app.
      rewrite Hp1, Hp2, Hst1. done.
    + rewrite Hn2, Hn1, (Nat.add_comm (directivesMet gosec c)), Nat.iter_add.
      reflexivity.
Qed.

Lemma Walk_spec n :
  forall gosec g ev, frame gosec g ->
    walkSpec gosec g ev (WalkAnalyzer (g, ev) n)
      (activeSets gosec (topSet (Ignores (context g))) n)
      (directivesMet gosec n).
Proof.
  induction n as [a k cs IH] using Node_ind_children.
  intros gosec g ev Hfr. set (n := MkNode a k cs).
  destruct (ignore_frame _ _ n Hfr) as [Hdir Hfound].
  unfold WalkAnalyzer. subst n. rewrite Walk_unfold, Visit_Some.
  cbn [activeSets directivesMet]. set (n := MkNode a k cs) in *.
  rewrite <- Hdir, <- Hfound.
  destruct ((ignore g n).1.2) eqn:Hall.
  - unfold walkSpec. cbn [fst snd].
    split; [eapply frame_trans; [exact Hfr|apply frame_ignore]|].
    split; [by rewrite ignore_context|].
    split; [exists []; by rewrite app_nil_r|].
    rewrite ignore_state, (ignore_all_found _ _ Hall). reflexivity.
  - pose proof (runRules_spec n (activeSet g n) (RegisteredFor (ruleset g) n)
                  (enter g n) (ev ++ [EvScope (addr n) (activeSet g n)])) as Hrun.
    cbn zeta in Hrun.
    destruct (fold_left (runRule n (activeSet g n)) (RegisteredFor (ruleset g) n)
                (enter g n, ev ++ [EvScope (addr n) (activeSet g n)])) as [g2 ev2].
    cbn [fst snd] in Hrun. destruct Hrun as (Hev2 & _ & Hctx2 & Hfr2 & Hn2 & _).
    assert (Hfe : frame g (enter g n)).
    { unfold enter. pose proof (frame_ignore g n) as (?&?&?&?&?&?&?).
      unfold frame. cbn. rewrite ignore_context in *. repeat split; done. }
    assert (Hst2 : Ignores (context g2) = activeSet g n :: Ignores (context g)).
    { rewrite Hctx2. unfold enter. cbn. by rewrite ignore_context. }
    assert (Hfr02 : frame gosec g2).
    { eapply frame_trans; [exact Hfr|]. eapply frame_trans; [exact Hfe|exact Hfr2]. }
    pose proof (Walk_children_spec gosec cs
                  (Forall_impl _ _ _ IH (fun c Hc => Hc gosec)) g2 ev2 Hfr02) as Hcs.
    destruct (fold_left (Walk Visit) cs (g2, ev2)) as [g3 ev3].
    destruct Hcs as (Hfr3 & Hst3 & (new3 & Hev3 & Hp3) & Hn3). cbn [fst snd] in *.
    pose proof (Visit_None g3 ev3) as Hleave. cbn zeta in Hleave.
    destruct (Visit (g3, ev3) None) as [[g4 ev4] more4]. cbn [fst snd] in *.
    destruct Hleave as (_ & -> & Hfr4 & Hst4 & _ & Hstats4).
    unfold walkSpec. cbn [fst snd].
    split; [eapply frame_trans; [exact Hfr3|exact Hfr4]|].
    split; [by rewrite Hst4, Hst3, Hst2|].
    split.
    + exists ((EvScope (addr n) (activeSet g n) ::
               ((fun rule => EvMatch (ID rule) (addr n)) <$>
                  dispatched (activeSet g n) (RegisteredFor (ruleset g) n))) ++ new3).
      split; [rewrite Hev3, Hev2, <- !app_assoc; reflexivity|].
      rewrite pushed_app, Hp3, Hst2. cbn [pushed omap list_omap topSet].
      fold (pushed ((fun rule => EvMatch (ID rule) (addr n)) <$>
                      dispatched (activeSet g n) (RegisteredFor (ruleset g) n))).
      rewrite pushed_matches by eauto.
      unfold activeSet at 1 2. rewrite dom_unionIgnores. reflexivity.
    + rewrite Hstats4, Hn3, Hn2. unfold enter. cbn [stats set_context].
      rewrite Nat.add_comm, Nat.iter_add. f_equal.
      rewrite ignore_state. destruct (nosecFound g n); reflexivity.
Qed.

Lemma activeAt_nil gosec P n :
  activeAt gosec P n [] =
  if (ignore gosec n).1.2 then None
  else Some (P ∪ list_to_set (ignore gosec n).1.1).
Proof. reflexivity. Qed.

Lemma activeAt_cons gosec P n i path :
  activeAt gosec P n (i :: path) =
  if (ignore gosec n).1.2 then None
  else match children n !! i with
       | Some c => activeAt gosec (P ∪ list_to_set (ignore gosec n).1.1) c path
       | None => None
       end.
Proof. reflexivity. Qed.

Lemma activeAt_superset gosec path :
  forall P n B, activeAt gosec P n path = Some B -> P ⊆ B.
Proof.
  induction path as [|i path IH]; intros P n B.
  - rewrite activeAt_nil. destruct ((ignore gosec n).1.2); [discriminate|].
    intros [= <-]. set_solver.
  - rewrite activeAt_cons. destruct ((ignore gosec n).1.2); [discriminate|].
    destruct (children n !! i) as [c|]; [|discriminate].
    intros HB%IH. set_solver.
Qed.

Lemma activeAt_monotone gosec path :
  forall q P n A B,
    activeAt gosec P n path = Some A ->
    activeAt gosec P n (path ++ q) = Some B ->
    A ⊆ B.
Proof.
  induction path as [|i path IH]; intros q P n A B.
  - rewrite activeAt_nil. cbn [app]. destruct q as [|j q].
    + rewrite activeAt_nil. destruct ((ignore gosec n).1.2); [discriminate|].
      by intros [= <-] [= <-].
    + rewrite activeAt_cons. destruct ((ignore gosec n).1.2); [discriminate|].
      intros [= <-]. destruct (children n !! j) as [c|]; [|discriminate].
      apply activeAt_superset.
  - cbn [app]. rewrite !activeAt_cons.
    destruct ((ignore gosec n).1.2); [discriminate|].
    destruct (children n !! i) as [c|]; [|discriminate]. apply IH.
Qed.

Lemma activeAt_child gosec path :
  forall i P n A,
    activeAt gosec P n (path ++ [i]) = Some A ->
    exists parentSet m,
      activeAt gosec P n path = Some parentSet /\
      nodeAt n (path ++ [i]) = Some m /\
      A = parentSet ∪ list_to_set (ignore gosec m).1.1.
Proof.
  induction path as [|j path IH]; intros i P n A.
  - cbn [app]. rewrite activeAt_cons, activeAt_nil. cbn [nodeAt].
    destruct ((ignore gosec n).1.2); [discriminate|].
    destruct (children n !! i) as [c|]; [|discriminate].
    rewrite activeAt_nil. destruct ((ignore gosec c).1.2); [discriminate|].
    intros [= <-]. eauto.
  - cbn [app]. rewrite !activeAt_cons. cbn [nodeAt].
    destruct ((ignore gosec n).1.2); [discriminate|].
    destruct (children n !! j) as [c|]; [|discriminate]. apply IH.
Qed.

Lemma activeAt_in_activeSets gosec path :
  forall P n A,
    activeAt gosec P n path = Some A ->
    exists m, nodeAt n path = Some m /\ (addr m, A) ∈ activeSets gosec P n.
Proof.
  induction path as [|i path IH]; intros P [a k cs] A.
  - rewrite activeAt_nil. cbn [activeSets nodeAt].
    destruct ((ignore gosec (MkNode a k cs)).1.2); [discriminate|].
    intros [= <-]. eexists; split; [reflexivity|]. apply list_elem_of_here.
  - rewrite activeAt_cons. cbn [activeSets nodeAt children].
    destruct ((ignore gosec (MkNode a k cs)).1.2); [discriminate|].
    destruct (cs !! i) as [c|] eqn:Hc; [|discriminate].
    intros (m & Hm & Hin)%IH. exists m. split; [exact Hm|].
    apply list_elem_of_further, list_elem_of_In, in_flat_map.
    exists c. split; apply list_elem_of_In; [|exact Hin].
    eapply list_elem_of_lookup_2, Hc.
Qed.

(** C1: the exclusion sets a walk pushes, node by node, are those the rule
    of the specification gives.  The set computed at the root of the walk is
    the set on top of the stack united with the codes of its own directive;
    the set computed at any other visited node is the set computed at its
    parent united with the codes of its own directive; the walk restores the
    stack it found; and along a path the set never shrinks, so that a code
    excluded at a node is excluded at every visited node below it. *)
Theorem Walk_active_sets (gosec : Analyzer) (ev : list Event) (n : Node) :
  let P := topSet (Ignores (context gosec)) in
  (exists new,
      (WalkAnalyzer (gosec, ev) n).2 = ev ++ new /\
      pushed new = activeSets gosec P n) /\
  Ignores (context (WalkAnalyzer (gosec, ev) n).1) = Ignores (context gosec) /\
  (forall path A,
      activeAt gosec P n path = Some A ->
      exists m, nodeAt n path = Some m /\ (addr m, A) ∈ activeSets gosec P n) /\
  (forall A,
      activeAt gosec P n [] = Some A ->
      A = P ∪ list_to_set (ignore gosec n).1.1 /\
      dom (activeSet gosec n) = A) /\
  (forall path i A,
      activeAt gosec P n (path ++ [i]) = Some A ->
      exists parentSet m,
        activeAt gosec P n path = Some parentSet /\
        nodeAt n (path ++ [i]) = Some m /\
        A = parentSet ∪ list_to_set (ignore gosec m).1.1) /\
  (forall path q A B,
      activeAt gosec P n path = Some A ->
      activeAt gosec P n (path ++ q) = Some B ->
      A ⊆ B).
Proof.
  intros P.
  destruct (Walk_spec n gosec gosec ev (frame_refl gosec)) as (_ & Hst & Hev & _).
  split; [exact Hev|]. split; [exact Hst|].
  split; [intros path A; apply activeAt_in_activeSets|].
  split.
  { intros A. rewrite activeAt_nil.
    destruct ((ignore gosec n).1.2); [discriminate|]. intros [= <-].
    split; [reflexivity|]. unfold activeSet. apply dom_unionIgnores. }
  split; [intros path i A; apply activeAt_child|].
  intros path q A B. apply activeAt_monotone.
Qed.

(** C6: every directive met counts once.  A call of [ignore] that finds the
    marker on a node increments [NumNosec] exactly once, whatever codes the
    directive lists and whether or not it is exclude-all, and a call that
    finds none leaves the counter alone; over a whole walk the counter is
    incremented once for each directive the walk meets (without overflow,
    it grows by their number). *)
Theorem NumNosec_once_per_directive (gosec : Analyzer) (ev : list Event) (n : Node) :
  NumNosec (stats (ignore gosec n).2) =
    (if nosecFound gosec n then plusplus (NumNosec (stats gosec))
     else NumNosec (stats gosec)) /\
  NumNosec (stats (WalkAnalyzer (gosec, ev) n).1) =
    Nat.iter (directivesMet gosec n) plusplus (NumNosec (stats gosec)) /\
  (GoInt.in_range (NumNosec (stats gosec)) ->
   GoInt.in_range (NumNosec (stats gosec) + Z.of_nat (directivesMet gosec n)) ->
   NumNosec (stats (WalkAnalyzer (gosec, ev) n).1) =
     NumNosec (stats gosec) + Z.of_nat (directivesMet gosec n)).
Proof.
  assert (Hwalk : NumNosec (stats (WalkAnalyzer (gosec, ev) n).1) =
            Nat.iter (directivesMet gosec n) plusplus (NumNosec (stats gosec)))
    by apply (Walk_spec n gosec gosec ev (frame_refl gosec)).
  split; [|split].
  - rewrite ignore_state. destruct (nosecFound gosec n); reflexivity.
  - exact Hwalk.
  - intros H0 Hk. rewrite Hwalk. by apply iter_increment.
Qed.

(** ** Loading the rules *)

Lemma Register_lookup rs r nodes t :
  default [] (Register rs r nodes !! t) =
  default [] (rs !! t) ++ ((fun _ => r) <$> filter (fun t' => t' = t) nodes).
Proof.
  unfold Register. revert rs.
  induction nodes as [|t0 nodes IH]; intros rs; cbn [fold_left].
  - by rewrite app_nil_r.
  - rewrite IH, filter_cons. destruct (decide (t0 = t)) as [->|Hne].
    + rewrite lookup_insert_eq. cbn. by rewrite <- app_assoc.
    + by rewrite lookup_insert_ne.
Qed.

Lemma LoadRulesIn_registered order n :
  forall gosec,
    RegisteredFor (ruleset (LoadRulesIn order gosec)) n =
    RegisteredFor (ruleset gosec) n ++ flat_map (contributes (config gosec) n) order.
Proof.
  unfold LoadRulesIn.
  induction order as [|[id def] order IH]; intros gosec; cbn [fold_left flat_map].
  - by rewrite app_nil_r.
  - unfold contributes at 1. cbn [fst snd].
    destruct (def id (config gosec)) as [r nodes] eqn:Hdef.
    rewrite IH. cbn [config ruleset set_ruleset].
    unfold RegisteredFor at 1 2. rewrite Register_lookup.
    by rewrite <- app_assoc.
Qed.



(** ** [Process]: the error map *)

#[local] Instance byLineAndColumn_trans : Transitive byLineAndColumn.
Proof. intros e1 e2 e3. unfold byLineAndColumn. lia. Qed.

#[local] Instance byLineAndColumn_total : Total byLineAndColumn.
Proof. intros e1 e2. unfold byLineAndColumn. lia. Qed.

Lemma Walk_frame g ev n : frame g (WalkAnalyzer (g, ev) n).1.
Proof. apply (Walk_spec n g g ev (frame_refl g)). Qed.

Lemma checkFile_errors pkg g file : errors (checkFile pkg g file) = errors g.
Proof.
  unfold checkFile. cbn [errors set_stats].
  match goal with |- context [WalkAnalyzer (?g1, []) ?n] =>
    pose proof (Walk_frame g1 [] n) as (_ & _ & _ & He & _) end.
  rewrite He. reflexivity.
Qed.

Lemma checkPackage_errors g pkg : errors (checkPackage g pkg) = errors g.
Proof.
  unfold checkPackage.
  assert (Hfold : forall files g1,
             errors (fold_left (checkFile pkg) files g1) = errors g1).
  { induction files as [|file files IH]; intros g1; cbn [fold_left]; [done|].
    by rewrite IH, checkFile_errors. }
  by rewrite Hfold.
Qed.

Lemma checkPackages_errors pkgs g :
  errors (fold_left checkPackage pkgs g) = errors g.
Proof.
  revert g. induction pkgs as [|pkg pkgs IH]; intros g; cbn [fold_left]; [done|].
  by rewrite IH, checkPackage_errors.
Qed.

(** C8 (amended): after a call of [Process] that returns no error, the
    errors [Report()] gives for every file are in ascending
    [(line, column)] order, each error at or before every later one; errors
    at the same position are all kept, so the order need not be strict. *)
Theorem Process_errors_sorted (ld : Loader) (gosec : Analyzer)
    (buildTags packagePaths : list string) (gosec' : Analyzer) :
  Process ld gosec buildTags packagePaths = Next gosec' ->
  forall file errs,
    (Report gosec').2 !! file = Some errs ->
    StronglySorted byLineAndColumn errs.
Proof.
  unfold Process, checkPackages, Report. cbn [snd].
  destruct (forRange (loadPath ld) (gosec, []) packagePaths) as [[g pkgs]|[g pkgs] e|[g pkgs]];
    try discriminate.
  destruct (recordErrors (errors g) pkgs) as [errs0| |]; try discriminate.
  intros [= <-] file errs. rewrite checkPackages_errors. cbn [errors set_errors].
  unfold sortErrors. rewrite lookup_fmap.
  destruct (errs0 !! file) as [l|]; [|discriminate]. intros [= <-].
  apply (StronglySorted_merge_sort byLineAndColumn).
Qed.

(** ** [Process]: paths, loader failures and the log *)

Ltac sbl :=
  unfold sameVisitor, sameLoaded, sameButLogger in *; cbn in *;
  intuition (try congruence).

Lemma sameButLogger_refl g : sameButLogger g g.
Proof. sbl. Qed.

Lemma sameButLogger_trans g1 g2 g3 :
  sameButLogger g1 g2 -> sameButLogger g2 g3 -> sameButLogger g1 g3.
Proof. sbl. Qed.

Lemma sameButLogger_log g g' line : sameButLogger g g' -> sameButLogger (log g line) g'.
Proof. sbl. Qed.

Lemma sameButLogger_log_r g g' line : sameButLogger g g' -> sameButLogger g (log g' line).
Proof. sbl. Qed.

Lemma Walk_relates {V : Type} (visit : V -> option Node -> V * bool)
    (R : V -> V -> Prop) :
  (forall v v' n, R v v' ->
     R (visit v n).1 (visit v' n).1 /\ (visit v n).2 = (visit v' n).2) ->
  forall n v v', R v v' -> R (Walk visit v n) (Walk visit v' n).
Proof.
  intros step. induction n as [a k cs IH] using Node_ind_children.
  intros v v' Hv. rewrite !Walk_unfold.
  destruct (step v v' (Some (MkNode a k cs)) Hv) as [H1 H2].
  destruct (visit v (Some (MkNode a k cs))) as [w more].
  destruct (visit v' (Some (MkNode a k cs))) as [w' more'].
  cbn [fst snd] in *. subst more'. destruct more; [|exact H1].
  apply step. clear Hv. revert w w' H1.
  induction IH as [|c cs Hc _ IHcs]; intros w w' Hw; cbn [fold_left]; [exact Hw|].
  apply IHcs, Hc, Hw.
Qed.

Lemma ignore_same g g' n :
  sameButLogger g g' ->
  (ignore g n).1 = (ignore g' n).1 /\ sameButLogger (ignore g n).2 (ignore g' n).2.
Proof.
  intros H. unfold ignore.
  assert (context g = context g') as <- by sbl.
  assert (ignoreNosec g = ignoreNosec g') as <- by sbl.
  destruct (Comments (context g) !! addr n) as [groups|]; [|by split].
  destruct (ignoreNosec g); cbn [negb]; [by split|].
  destruct (ignoreGroups groups) as [[ig all]|]; [|by split].
  split; [done|]. sbl.
Qed.

Lemma runRule_same n ignores st st' rule :
  sameVisitor st st' ->
  sameVisitor (runRule n ignores st rule) (runRule n ignores st' rule).
Proof.
  destruct st as [g ev], st' as [g' ev']. intros [H Hev]. cbn [fst snd] in *.
  subst ev'. unfold runRule.
  assert (context g = context g') as <- by sbl.
  destruct (ignores !! ID rule); [by split|].
  destruct (Match rule n (context g)) as [issue err].
  destruct err as [e|], issue as [i|];
    try destruct (GetLocation n (FileSet (context g))); sbl.
Qed.

Lemma runRules_same n ignores rules :
  forall st st',
    sameVisitor st st' ->
    sameVisitor (fold_left (runRule n ignores) rules st)
                (fold_left (runRule n ignores) rules st').
Proof.
  induction rules as [|rule rules IH]; intros st st' H; cbn [fold_left]; [exact H|].
  apply IH, runRule_same, H.
Qed.

Lemma Visit_same st st' n :
  sameVisitor st st' ->
  sameVisitor (Visit st n).1 (Visit st' n).1 /\ (Visit st n).2 = (Visit st' n).2.
Proof.
  destruct st as [g ev], st' as [g' ev']. intros [H Hev]. cbn [fst snd] in *.
  subst ev'. destruct n as [n|].
  - rewrite !Visit_Some. destruct (ignore_same g g' n H) as [Hdir Hst].
    rewrite <- Hdir. destruct ((ignore g n).1.2); cbn [fst snd].
    + split; [by split|done].
    + split; [|done].
      assert (Hact : activeSet g n = activeSet g' n).
      { unfold activeSet. rewrite Hdir. by assert (context g = context g') as <- by sbl. }
      assert (ruleset g = ruleset g') as <- by sbl.
      rewrite <- Hact. apply runRules_same. split; [|done]. cbn [fst].
      unfold enter. rewrite <- Hact. sbl.
  - unfold Visit. assert (context g = context g') as <- by sbl.
    destruct (0 <? length (Ignores (context g)))%nat; cbn [fst snd];
      (split; [|done]); sbl.
Qed.

Lemma Walk_same st st' n :
  sameVisitor st st' -> sameVisitor (WalkAnalyzer st n) (WalkAnalyzer st' n).
Proof. apply Walk_relates. intros v v' m. apply Visit_same. Qed.

Lemma checkFile_same pkg g g' file :
  sameButLogger g g' -> sameButLogger (checkFile pkg g file) (checkFile pkg g' file).
Proof.
  intros H. unfold checkFile.
  match goal with |- sameButLogger (set_stats (WalkAnalyzer ?s ?n).1 _)
                                   (set_stats (WalkAnalyzer ?s' _).1 _) =>
    pose proof (Walk_same s s' n) as Hw end.
  destruct Hw as [Hw _]; [sbl|]. sbl.
Qed.

Lemma checkPackage_same g g' pkg :
  sameButLogger g g' -> sameButLogger (checkPackage g pkg) (checkPackage g' pkg).
Proof.
  intros H. unfold checkPackage.
  assert (Hfold : forall files g1 g1', sameButLogger g1 g1' ->
             sameButLogger (fold_left (checkFile pkg) files g1)
                           (fold_left (checkFile pkg) files g1')).
  { induction files as [|file files IH]; intros g1 g1' H1; cbn [fold_left]; [done|].
    apply IH, checkFile_same, H1. }
  apply Hfold. sbl.
Qed.

Lemma checkPackages_same pkgs g g' :
  sameButLogger g g' -> flowRel sameButLogger (checkPackages g pkgs) (checkPackages g' pkgs).
Proof.
  intros H. unfold checkPackages.
  assert (errors g = errors g') as <- by sbl.
  destruct (recordErrors (errors g) pkgs) as [errs|errs e|errs];
    (split; [reflexivity|]); cbn [flowState]; [|sbl|sbl].
  assert (Hfold : forall ps g1 g1', sameButLogger g1 g1' ->
             sameButLogger (fold_left checkPackage ps g1) (fold_left checkPackage ps g1')).
  { induction ps as [|pk ps IH]; intros g1 g1' H1; cbn [fold_left]; [done|].
    apply IH, checkPackage_same, H1. }
  apply Hfold. sbl.
Qed.

Lemma logsExtend_refl g : logsExtend g g.
Proof. unfold logsExtend. done. Qed.

Lemma logsExtend_trans g1 g2 g3 : logsExtend g1 g2 -> logsExtend g2 g3 -> logsExtend g1 g3.
Proof. unfold logsExtend. intros H1 H2. by etrans. Qed.

Lemma logsExtend_log g line : logsExtend g (log g line).
Proof. unfold logsExtend. cbn. by apply prefix_app_r. Qed.

Lemma forRange_app {A B : Type} (body : A -> B -> Flow A) l1 l2 a :
  forRange body a (l1 ++ l2) =
  match forRange body a l1 with
  | Next a' => forRange body a' l2
  | stop => stop
  end.
Proof.
  revert a. induction l1 as [|x l1 IH]; intros a; cbn [forRange app]; [done|].
  destruct (body a x); [apply IH|done|done].
Qed.

Lemma forRange_rel {A B : Type} (body : A -> B -> Flow A) (R : A -> A -> Prop) l :
  (forall a a' x, R a a' -> flowRel R (body a x) (body a' x)) ->
  forall a a', R a a' -> flowRel R (forRange body a l) (forRange body a' l).
Proof.
  intros step. induction l as [|x l IH]; intros a a' Ha; cbn [forRange].
  - by split.
  - destruct (step a a' x Ha) as [Ho Hs].
    destruct (body a x), (body a' x); try discriminate; cbn in *.
    + by apply IH.
    + by split.
    + by split.
Qed.

Lemma loadPath_missing ld g pkgs p :
  missing ld p ->
  loadPath ld (g, pkgs) p = Next (log g (LogSkipping (GetPkgAbsPath ld p).1), pkgs).
Proof.
  unfold missing, loadPath. destruct (GetPkgAbsPath ld p) as [abspath [e|]]; cbn.
  - done.
  - by intros [? ?].
Qed.

Lemma loadPath_fine ld g pkgs p :
  loadsFine ld p ->
  exists pkgs',
    loadPath ld (g, pkgs) p =
    Next (log g (LogImportDirectory (GetPkgAbsPath ld p).1), pkgs ++ pkgs').
Proof.
  unfold loadsFine, loadPath. destruct (GetPkgAbsPath ld p) as [abspath oe]; cbn.
  destruct (ImportDir ld p) as [goFiles oe1]; cbn.
  destruct (packages_Load ld _) as [ps oe2]; cbn.
  intros (-> & -> & ->). by eexists.
Qed.

Lemma loadPath_fails ld g pkgs p err :
  loadFails ld p err ->
  loadPath ld (g, pkgs) p =
  Return (log g (LogImportDirectory (GetPkgAbsPath ld p).1), pkgs) err.
Proof.
  unfold loadFails, loadPath. destruct (GetPkgAbsPath ld p) as [abspath oe]; cbn.
  destruct (ImportDir ld p) as [goFiles oe1]; cbn.
  destruct (packages_Load ld _) as [ps oe2]; cbn.
  intros (-> & [->|[-> ->]]); done.
Qed.

Lemma loadPath_same ld st st' p :
  sameLoaded st st' -> flowRel sameLoaded (loadPath ld st p) (loadPath ld st' p).
Proof.
  destruct st as [g pkgs], st' as [g' pkgs']. intros [H Hp]. cbn [fst snd] in *.
  subst pkgs'. unfold loadPath.
  destruct (GetPkgAbsPath ld p) as [abspath [e|]]; [split; [done|sbl]|].
  destruct (ImportDir ld p) as [goFiles [e|]]; [split; [done|sbl]|].
  destruct (packages_Load ld _) as [ps [e|]]; split; try done; sbl.
Qed.

Lemma loadPath_logs ld st p : logsExtend st.1 (flowState (loadPath ld st p)).1.
Proof.
  destruct st as [g pkgs]. unfold loadPath.
  destruct (GetPkgAbsPath ld p) as [abspath [e|]]; [apply logsExtend_log|].
  destruct (ImportDir ld p) as [goFiles [e|]]; [apply logsExtend_log|].
  destruct (packages_Load ld _) as [ps [e|]]; apply logsExtend_log.
Qed.

Lemma loadPaths_logs ld paths :
  forall st, logsExtend st.1 (flowState (forRange (loadPath ld) st paths)).1.
Proof.
  induction paths as [|p paths IH]; intros st; cbn [forRange].
  - apply logsExtend_refl.
  - pose proof (loadPath_logs ld st p) as Hp.
    destruct (loadPath ld st p) as [st1| |]; [|exact Hp|exact Hp].
    eapply logsExtend_trans; [exact Hp|apply IH].
Qed.

Lemma loadPaths_reach ld pre :
  Forall (fun q => missing ld q \/ loadsFine ld q) pre ->
  forall g pkgs,
    exists g1 pkgs1,
      forRange (loadPath ld) (g, pkgs) pre = Next (g1, pkgs1) /\
      sameButLogger g g1.
Proof.
  induction 1 as [|q pre Hq _ IH]; intros g pkgs; cbn [forRange].
  - exists g, pkgs. split; [done|apply sameButLogger_refl].
  - destruct Hq as [Hq|Hq].
    + rewrite (loadPath_missing _ _ _ _ Hq).
      destruct (IH (log g (LogSkipping (GetPkgAbsPath ld q).1)) pkgs)
        as (g1 & pkgs1 & -> & Hs).
      exists g1, pkgs1. split; [done|]. sbl.
    + destruct (loadPath_fine ld g pkgs q Hq) as [pkgs' ->].
      destruct (IH (log g (LogImportDirectory (GetPkgAbsPath ld q).1)) (pkgs ++ pkgs'))
        as (g1 & pkgs1 & -> & Hs).
      exists g1, pkgs1. split; [done|]. sbl.
Qed.

Lemma runRules_logs n ignores rules :
  forall st, logsExtend st.1 (fold_left (runRule n ignores) rules st).1.
Proof.
  induction rules as [|rule rules IH]; intros st; cbn [fold_left].
  - apply logsExtend_refl.
  - eapply logsExtend_trans; [|apply IH].
    destruct st as [g ev]. unfold runRule.
    destruct (ignores !! ID rule); [apply logsExtend_refl|].
    destruct (Match rule n (context g)) as [issue err].
    destruct err as [e|], issue as [i|];
      try destruct (GetLocation n (FileSet (context g)));
      unfold logsExtend; cbn; try done; by apply prefix_app_r.
Qed.

Lemma Visit_logs st n : logsExtend st.1 (Visit st n).1.1.
Proof.
  destruct st as [g ev], n as [n|].
  - rewrite Visit_Some. destruct ((ignore g n).1.2); cbn [fst snd].
    + rewrite ignore_state. destruct (nosecFound g n); unfold logsExtend; done.
    + eapply logsExtend_trans; [|apply runRules_logs]. cbn [fst].
      unfold enter, logsExtend. cbn. rewrite ignore_state.
      destruct (nosecFound g n); done.
  - unfold Visit. destruct (0 <? length (Ignores (context g)))%nat;
      unfold logsExtend; done.
Qed.

Lemma Walk_logs st n : logsExtend st.1 (WalkAnalyzer st n).1.
Proof.
  apply (Walk_preserves Visit (fun v => logsExtend st.1 v.1));
    [|apply logsExtend_refl].
  intros v m Hv. eapply logsExtend_trans; [exact Hv|apply Visit_logs].
Qed.

Lemma checkFile_logs pkg g file : logsExtend g (checkFile pkg g file).
Proof.
  unfold checkFile.
  match goal with |- logsExtend _ (set_stats (WalkAnalyzer ?s ?n).1 _) =>
    pose proof (Walk_logs s n) as Hw end.
  unfold logsExtend in *. cbn in *. etrans; [|exact Hw]. by apply prefix_app_r.
Qed.

Lemma checkPackage_logs g pkg : logsExtend g (checkPackage g pkg).
Proof.
  unfold checkPackage.
  assert (Hfold : forall files g1, logsExtend g1 (fold_left (checkFile pkg) files g1)).
  { induction files as [|file files IH]; intros g1; cbn [fold_left].
    - apply logsExtend_refl.
    - eapply logsExtend_trans; [apply checkFile_logs|apply IH]. }
  eapply logsExtend_trans; [apply logsExtend_log|apply Hfold].
Qed.

Lemma checkPackages_logs g pkgs : logsExtend g (flowState (checkPackages g pkgs)).
Proof.
  unfold checkPackages.
  destruct (recordErrors (errors g) pkgs) as [errs|errs e|errs]; cbn [flowState];
    [|unfold logsExtend; done|unfold logsExtend; done].
  assert (Hfold : forall ps g1, logsExtend g1 (fold_left checkPackage ps g1)).
  { induction ps as [|pk ps IH]; intros g1; cbn [fold_left].
    - apply logsExtend_refl.
    - eapply logsExtend_trans; [apply checkPackage_logs|apply IH]. }
  eapply logsExtend_trans; [|apply Hfold]. unfold logsExtend; done.
Qed.

Lemma Process_afterLoading ld gosec buildTags packagePaths :
  Process ld gosec buildTags packagePaths =
  afterLoading (forRange (loadPath ld) (gosec, []) packagePaths).
Proof. reflexivity. Qed.

Lemma afterLoading_same f f' :
  flowRel sameLoaded f f' -> flowRel sameButLogger (afterLoading f) (afterLoading f').
Proof.
  intros [Ho [Hs Hp]].
  destruct f as [[g pkgs]|[g pkgs] e|[g pkgs]], f' as [[g' pkgs']|[g' pkgs'] e'|[g' pkgs']];
    try discriminate; cbn in *.
  - subst pkgs'. by apply checkPackages_same.
  - by split.
  - by split.
Qed.

Lemma afterLoading_logs f : logsExtend (flowState f).1 (flowState (afterLoading f)).
Proof.
  destruct f as [[g pkgs]|[g pkgs] e|[g pkgs]]; cbn;
    [apply checkPackages_logs|apply logsExtend_refl|apply logsExtend_refl].
Qed.

(** C7: [Process] skips a path that does not exist: but for the log the
    call ends as it does without that path, in the same way and in the same
    state, and when the loop reaches the path the skip is logged.  A loader
    failure on an existing path makes [Process] return that error at once:
    nothing is scanned, and but for the log the analyzer is as it was. *)
Theorem Process_paths (ld : Loader) (gosec : Analyzer) (buildTags : list string) :
  (forall pre p post,
      missing ld p ->
      flowRel sameButLogger
        (Process ld gosec buildTags (pre ++ p :: post))
        (Process ld gosec buildTags (pre ++ post)) /\
      (Forall (fun q => missing ld q \/ loadsFine ld q) pre ->
       LogSkipping (GetPkgAbsPath ld p).1 ∈
         logOutput (logger (flowState (Process ld gosec buildTags (pre ++ p :: post)))))) /\
  (forall pre p post err,
      Forall (fun q => missing ld q \/ loadsFine ld q) pre ->
      loadFails ld p err ->
      Process ld gosec buildTags (pre ++ p :: post) =
        Return (flowState (Process ld gosec buildTags (pre ++ p :: post))) err /\
      sameButLogger gosec (flowState (Process ld gosec buildTags (pre ++ p :: post)))).
Proof.
  split.
  - intros pre p post Hp. rewrite !Process_afterLoading, !forRange_app. split.
    + apply afterLoading_same.
      destruct (forRange (loadPath ld) (gosec, []) pre) as [[g1 pkgs1]|[g1 pkgs1] e|[g1 pkgs1]].
      * cbn [forRange]. rewrite (loadPath_missing _ _ _ _ Hp).
        apply forRange_rel; [intros a a' x; apply loadPath_same|].
        split; [|done]. apply sameButLogger_log, sameButLogger_refl.
      * split; [done|]. split; [apply sameButLogger_refl|done].
      * split; [done|]. split; [apply sameButLogger_refl|done].
    + intros Hpre.
      destruct (loadPaths_reach ld pre Hpre gosec []) as (g1 & pkgs1 & -> & _).
      cbn [forRange]. rewrite (loadPath_missing _ _ _ _ Hp).
      match goal with |- _ ∈ logOutput (logger (flowState (afterLoading ?f))) =>
        pose proof (afterLoading_logs f) as H1 end.
      match type of H1 with context [forRange _ ?st post] =>
        pose proof (loadPaths_logs ld post st) as H2 end.
      pose proof (logsExtend_trans _ _ _ H2 H1) as [more Hmore].
      rewrite Hmore. cbn. set_solver.
  - intros pre p post err Hpre Hp.
    rewrite !Process_afterLoading, !forRange_app.
    destruct (loadPaths_reach ld pre Hpre gosec []) as (g1 & pkgs1 & -> & Hs).
    cbn [forRange]. rewrite (loadPath_fails _ _ _ _ _ Hp). cbn.
    split; [done|]. by apply sameButLogger_log_r.
Qed.

(** ** Further properties of the walk and of [Process] *)

Lemma wrap_add_l x y : GoInt.wrap (GoInt.wrap x + y) = GoInt.wrap (x + y).
Proof.
  unfold GoInt.wrap. f_equal.
  replace ((x + 2 ^ 63) mod 2 ^ 64 - 2 ^ 63 + y + 2 ^ 63)
    with ((x + 2 ^ 63) mod 2 ^ 64 + y) by lia.
  replace (x + y + 2 ^ 63) with ((x + 2 ^ 63) + y) by lia.
  by rewrite Zplus_mod_idemp_l.
Qed.

Lemma iter_plusplus_wrap k x :
  Nat.iter k plusplus (GoInt.wrap x) = GoInt.wrap (x + Z.of_nat k).
Proof.
  induction k as [|k IH]; [cbn; f_equal; lia|].
  rewrite Nat.iter_succ, IH. unfold plusplus. rewrite wrap_add_l. f_equal. lia.
Qed.

Lemma enter_issues g n :
  issues (enter g n) = issues g /\ NumFound (stats (enter g n)) = NumFound (stats g) /\
  logger (enter g n) = logger g /\ ruleset (enter g n) = ruleset g /\
  FileSet (context (enter g n)) = FileSet (context g).
Proof.
  unfold enter. cbn. rewrite ignore_state.
  destruct (nosecFound g n); repeat split.
Qed.

Lemma runRule_logged n ignores g ev rule :
  ignores !! ID rule = None ->
  context (runRule n ignores (g, ev) rule).1 = context g /\
  logOutput (logger (runRule n ignores (g, ev) rule).1) =
    logOutput (logger g) ++
    match ruleErrorLine n (context g) rule with Some l => [l] | None => [] end.
Proof.
  intros Hig. unfold runRule, ruleErrorLine. rewrite Hig.
  destruct (Match rule n (context g)) as [issue err]. cbn [snd].
  destruct err as [e|], issue as [i|];
    try destruct (GetLocation n (FileSet (context g))) as [file line];
    cbn; by rewrite ?app_nil_r.
Qed.

(** The lines the dispatch loop logs: one for each called rule whose
    [Match] returned an error. *)
Lemma runRules_logged n ignores rules :
  forall g ev,
    logOutput (logger (fold_left (runRule n ignores) rules (g, ev)).1) =
    logOutput (logger g) ++ omap (ruleErrorLine n (context g)) (dispatched ignores rules).
Proof.
  unfold dispatched.
  induction rules as [|rule rules IH]; intros g ev; cbn [fold_left].
  - cbn. by rewrite app_nil_r.
  - rewrite filter_cons.
    destruct (ignores !! ID rule) as [b|] eqn:Hig.
    + destruct (decide (Some b = None)) as [|_]; [discriminate|].
      unfold runRule at 2. rewrite Hig. apply IH.
    + destruct (decide (@None bool = None)) as [_|]; [|done].
      destruct (runRule_logged n ignores g ev rule Hig) as [Hctx Hlog].
      destruct (runRule n ignores (g, ev) rule) as [g1 ev1]. cbn [fst] in *.
      rewrite IH, Hctx, Hlog, <- app_assoc. cbn [omap list_omap].
      by destruct (ruleErrorLine n (context g) rule).
Qed.

(** What holds of the analyzer before [Process] and is kept by logging, by
    recording errors, by installing a file's context, by a walk and by
    counting a file, holds when [Process] ends, however it ends. *)
Lemma Process_preserves (P : Analyzer -> Prop) :
  (forall g line, P g -> P (log g line)) ->
  (forall g e, P g -> P (set_errors g e)) ->
  (forall g c, P g -> Ignores c = Ignores (context g) -> P (set_context g c)) ->
  (forall st n, P st.1 -> P (WalkAnalyzer st n).1) ->
  (forall g lines, P g -> P (set_stats g (addFile (stats g) lines))) ->
  forall ld g buildTags packagePaths,
    P g -> P (flowState (Process ld g buildTags packagePaths)).
Proof.
  intros Hlog Herr Hctx Hwalk Hstats ld g buildTags packagePaths Hg.
  assert (Hload : forall paths st, P st.1 ->
             P (flowState (forRange (loadPath ld) st paths)).1).
  { induction paths as [|p paths IH]; intros st Hst; cbn [forRange]; [done|].
    assert (Hp : P (flowState (loadPath ld st p)).1).
    { destruct st as [g0 pkgs]. unfold loadPath.
      destruct (GetPkgAbsPath ld p) as [abspath [e|]]; [by apply Hlog|].
      destruct (ImportDir ld p) as [goFiles [e|]]; [by apply Hlog|].
      destruct (packages_Load ld _) as [ps [e|]]; by apply Hlog. }
    destruct (loadPath ld st p) as [st1| |]; [by apply IH|done|done]. }
  assert (Hfile : forall pkg g0 file, P g0 -> P (checkFile pkg g0 file)).
  { intros pkg g0 file H0. unfold checkFile. apply Hstats.
    apply (Hwalk (_, []) (fileRoot file)). cbn [fst].
    apply Hctx; [by apply Hlog|done]. }
  assert (Hpkg : forall pkg g0, P g0 -> P (checkPackage g0 pkg)).
  { intros pkg g0 H0. unfold checkPackage.
    assert (Hfold : forall files g1, P g1 -> P (fold_left (checkFile pkg) files g1)).
    { induction files as [|file files IH]; intros g1 H1; cbn [fold_left]; [done|].
      by apply IH, Hfile. }
    by apply Hfold, Hlog. }
  assert (Hpkgs : forall pkgs g0, P g0 -> P (fold_left checkPackage pkgs g0)).
  { induction pkgs as [|pkg pkgs IH]; intros g0 H0; cbn [fold_left]; [done|].
    by apply IH, Hpkg. }
  rewrite Process_afterLoading. specialize (Hload packagePaths (g, []) Hg).
  destruct (forRange (loadPath ld) (g, []) packagePaths) as [[g1 pkgs]|[g1 pkgs] e|[g1 pkgs]];
    cbn in *; [|done|done].
  unfold checkPackages.
  destruct (recordErrors (errors g1) pkgs) as [errs|errs e|errs]; cbn [flowState];
    [|by apply Herr|by apply Herr].
  by apply Hpkgs, Herr.
Qed.

Lemma Visit_found st n :
  foundMatchesIssues st.1 -> foundMatchesIssues (Visit st n).1.1.
Proof.
  destruct st as [g ev]. unfold foundMatchesIssues. cbn [fst]. intros Hg.
  destruct n as [n|].
  - rewrite Visit_Some. destruct ((ignore g n).1.2); cbn [fst snd].
    + rewrite ignore_state. by destruct (nosecFound g n).
    + pose proof (runRules_spec n (activeSet g n) (RegisteredFor (ruleset g) n)
                    (enter g n) (ev ++ [EvScope (addr n) (activeSet g n)])) as Hrun.
      cbn zeta in Hrun. destruct Hrun as (_ & His & _ & _ & _ & Hnf).
      destruct (enter_issues g n) as (Hi & Hf & _).
      rewrite His, Hnf, Hi, Hf, Hg, iter_plusplus_wrap.
      f_equal. rewrite length_app. lia.
  - pose proof (Visit_None g ev) as Hl. cbn zeta in Hl.
    destruct Hl as (_ & _ & _ & _ & Hi & Hs). by rewrite Hi, Hs.
Qed.

(** X1: the counter of found issues and the issue list stay in step.  A new
    analyzer and a reset one have both at zero, and a walk and a call of
    [Process] that start with the counter equal to the number of issues end
    with it equal to the number of issues, as Go [int]s. *)
Theorem NumFound_counts_issues :
  (forall conf lg, foundMatchesIssues (NewAnalyzer conf lg)) /\
  (forall g, foundMatchesIssues (Reset g)) /\
  (forall st n, foundMatchesIssues st.1 -> foundMatchesIssues (WalkAnalyzer st n).1) /\
  (forall ld g buildTags packagePaths,
      foundMatchesIssues g ->
      foundMatchesIssues (flowState (Process ld g buildTags packagePaths))).
Proof.
  assert (Hwalk : forall st n,
             foundMatchesIssues st.1 -> foundMatchesIssues (WalkAnalyzer st n).1).
  { intros st n. apply (Walk_preserves Visit (fun v => foundMatchesIssues v.1)).
    intros v m. apply Visit_found. }
  split; [done|]. split; [done|]. split; [exact Hwalk|].
  apply Process_preserves; try done.
Qed.

(** X2: an error returned by a rule does not stop the dispatch.  On a node
    that is not pruned, [Visit] calls every rule registered for the node's
    category whose identifier is not excluded, in the order of registration,
    logs one line for each call that returned an error, and returns itself
    as the visitor of the children. *)
Theorem Visit_calls_every_rule (gosec : Analyzer) (ev : list Event) (n : Node) :
  (ignore gosec n).1.2 = false ->
  (Visit (gosec, ev) (Some n)).2 = true /\
  (Visit (gosec, ev) (Some n)).1.2 =
    ev ++ EvScope (addr n) (activeSet gosec n) ::
      ((fun rule => EvMatch (ID rule) (addr n)) <$>
         dispatched (activeSet gosec n) (RegisteredFor (ruleset gosec) n)) /\
  logOutput (logger (Visit (gosec, ev) (Some n)).1.1) =
    logOutput (logger gosec) ++
      omap (ruleErrorLine n (context (Visit (gosec, ev) (Some n)).1.1))
           (dispatched (activeSet gosec n) (RegisteredFor (ruleset gosec) n)).
Proof.
  intros Hall. rewrite Visit_Some, Hall. cbn [fst snd].
  pose proof (runRules_spec n (activeSet gosec n) (RegisteredFor (ruleset gosec) n)
                (enter gosec n) (ev ++ [EvScope (addr n) (activeSet gosec n)])) as Hrun.
  cbn zeta in Hrun. destruct Hrun as (Hev & _ & Hctx & _).
  destruct (enter_issues gosec n) as (_ & _ & Hlg & _).
  split; [done|]. split; [by rewrite Hev, <- app_assoc|].
  by rewrite runRules_logged, Hctx, Hlg.
Qed.

Lemma Visit_issues_extend st n : issues st.1 `prefix_of` issues (Visit st n).1.1.
Proof.
  destruct st as [g ev], n as [n|]; cbn [fst].
  - rewrite Visit_Some. destruct ((ignore g n).1.2); cbn [fst snd].
    + rewrite ignore_state. by destruct (nosecFound g n).
    + pose proof (runRules_spec n (activeSet g n) (RegisteredFor (ruleset g) n)
                    (enter g n) (ev ++ [EvScope (addr n) (activeSet g n)])) as Hrun.
      cbn zeta in Hrun. destruct Hrun as (_ & His & _).
      destruct (enter_issues g n) as (Hi & _).
      rewrite His, Hi. by apply prefix_app_r.
  - pose proof (Visit_None g ev) as Hl. cbn zeta in Hl.
    destruct Hl as (_ & _ & _ & _ & Hi & _). by rewrite Hi.
Qed.

(** X3: issues are only ever appended.  What [Report()] listed before a
    walk or a call of [Process] is the beginning, in the same order, of what
    it lists afterwards, however the call ends. *)
Theorem Process_appends_issues (ld : Loader) (gosec : Analyzer)
    (buildTags packagePaths : list string) :
  (forall ev n, issues gosec `prefix_of` issues (WalkAnalyzer (gosec, ev) n).1) /\
  (Report gosec).1.1 `prefix_of`
    (Report (flowState (Process ld gosec buildTags packagePaths))).1.1.
Proof.
  assert (Hwalk : forall st n,
             issues gosec `prefix_of` issues st.1 ->
             issues gosec `prefix_of` issues (WalkAnalyzer st n).1).
  { intros st n. apply (Walk_preserves Visit (fun v => issues gosec `prefix_of` issues v.1)).
    intros v m Hv. etrans; [exact Hv|apply Visit_issues_extend]. }
  split; [intros ev n; by apply Hwalk|].
  unfold Report. cbn [fst].
  apply (Process_preserves (fun g => issues gosec `prefix_of` issues g)); try done.
Qed.

Lemma Visit_no_rules st n :
  ruleset st.1 = ∅ ->
  ruleset (Visit st n).1.1 = ∅ /\
  issues (Visit st n).1.1 = issues st.1 /\
  NumFound (stats (Visit st n).1.1) = NumFound (stats st.1) /\
  logger (Visit st n).1.1 = logger st.1.
Proof.
  destruct st as [g ev]. cbn [fst]. intros Hrs. destruct n as [n|].
  - rewrite Visit_Some. destruct ((ignore g n).1.2); cbn [fst snd].
    + rewrite ignore_state. by destruct (nosecFound g n).
    + unfold RegisteredFor. rewrite Hrs, lookup_empty. cbn.
      unfold enter. cbn. rewrite ignore_state. by destruct (nosecFound g n).
  - pose proof (Visit_None g ev) as Hl. cbn zeta in Hl.
    destruct Hl as (_ & _ & (_ & Hr & _) & _ & Hi & Hs).
    rewrite Hr, Hi, Hs. repeat split; [done|].
    unfold Visit. by destruct (0 <? length (Ignores (context g)))%nat.
Qed.

(** X4: without rules nothing is found.  When no rule is registered (as
    after [NewAnalyzer], before any [LoadRules]), a call of [Process] walks
    the files but leaves the issue list and the counter of found issues as
    they were. *)
Theorem Process_without_rules (ld : Loader) (gosec : Analyzer)
    (buildTags packagePaths : list string) :
  ruleset gosec = ∅ ->
  issues (flowState (Process ld gosec buildTags packagePaths)) = issues gosec /\
  NumFound (stats (flowState (Process ld gosec buildTags packagePaths)))
    = NumFound (stats gosec).
Proof.
  intros Hrs.
  pose (P := fun g : Analyzer =>
               ruleset g = ∅ /\ issues g = issues gosec /\
               NumFound (stats g) = NumFound (stats gosec)).
  assert (HP : P (flowState (Process ld gosec buildTags packagePaths))).
  { apply (Process_preserves P); try done.
    intros st n. apply (Walk_preserves Visit (fun v => P v.1)).
    intros v m (H1 & H2 & H3). destruct (Visit_no_rules v m H1) as (?&?&?&?).
    unfold P. repeat split; congruence. }
  destruct HP as (_ & Hi & Hf). by split.
Qed.

(** X5: the stack of exclusion sets does not leak.  However [Process]
    ends, the stack it leaves in the context is the one it found: every file
    is walked from that stack and every walk restores it. *)
Theorem Process_keeps_stack (ld : Loader) (gosec : Analyzer)
    (buildTags packagePaths : list string) :
  Ignores (context (flowState (Process ld gosec buildTags packagePaths)))
    = Ignores (context gosec).
Proof.
  apply (Process_preserves (fun g => Ignores (context g) = Ignores (context gosec)));
    try done.
  - intros g c Hg Hc. cbn. congruence.
  - intros [g ev] n Hg. cbn [fst] in *. rewrite <- Hg.
    apply (Walk_spec n g g ev (frame_refl g)).
Qed.

Lemma loadPaths_sameButLogger ld paths :
  forall st, sameButLogger st.1 (flowState (forRange (loadPath ld) st paths)).1.
Proof.
  induction paths as [|p paths IH]; intros st; cbn [forRange].
  - apply sameButLogger_refl.
  - assert (Hp : sameButLogger st.1 (flowState (loadPath ld st p)).1).
    { destruct st as [g pkgs]. unfold loadPath.
      destruct (GetPkgAbsPath ld p) as [abspath [e|]]; [sbl|].
      destruct (ImportDir ld p) as [goFiles [e|]]; [sbl|].
      destruct (packages_Load ld _) as [ps [e|]]; sbl. }
    destruct (loadPath ld st p) as [st1| |]; [|exact Hp|exact Hp].
    eapply sameButLogger_trans; [exact Hp|apply IH].
Qed.

Lemma checkFile_counts pkg g file :
  NumFiles (stats (checkFile pkg g file)) = plusplus (NumFiles (stats g)) /\
  NumLines (stats (checkFile pkg g file))
    = GoInt.wrap (NumLines (stats g) + fileLineCount file).
Proof.
  unfold checkFile. cbn [stats set_stats addFile NumFiles NumLines].
  match goal with |- context [WalkAnalyzer (?g1, []) ?n] =>
    pose proof (Walk_frame g1 [] n) as (_ & _ & _ & _ & _ & Hf & Hl) end.
  rewrite Hf, Hl. done.
Qed.

Lemma checkPackages_counts pkgs :
  forall g,
    NumFiles (stats (fold_left checkPackage pkgs g))
      = Nat.iter (length (filesOf pkgs)) plusplus (NumFiles (stats g)) /\
    NumLines (stats (fold_left checkPackage pkgs g))
      = fold_left (fun lines file => GoInt.wrap (lines + fileLineCount file))
                  (filesOf pkgs) (NumLines (stats g)).
Proof.
  assert (Hfiles : forall pkg files g,
             NumFiles (stats (fold_left (checkFile pkg) files g))
               = Nat.iter (length files) plusplus (NumFiles (stats g)) /\
             NumLines (stats (fold_left (checkFile pkg) files g))
               = fold_left (fun lines file => GoInt.wrap (lines + fileLineCount file))
                           files (NumLines (stats g))).
  { intros pkg. induction files as [|file files IH]; intros g; cbn [fold_left length]; [done|].
    destruct (IH (checkFile pkg g file)) as [-> ->].
    destruct (checkFile_counts pkg g file) as [-> ->].
    by rewrite Nat.iter_succ_r. }
  unfold filesOf.
  induction pkgs as [|pkg pkgs IH]; intros g; cbn [fold_left flat_map]; [done|].
  destruct (IH (checkPackage g pkg)) as [-> ->].
  unfold checkPackage.
  destruct (Hfiles pkg (Syntax pkg) (log g (LogCheckingPackage (Name pkg)))) as [-> ->].
  cbn [stats log set_logger]. rewrite length_app, fold_left_app.
  by rewrite (Nat.add_comm (length (Syntax pkg))), Nat.iter_add.
Qed.

(** The directives a walk meets depend on the analyzer through the nosec
    switch and the comment map only. *)
Lemma directivesMet_ext g g' n :
  ignoreNosec g = ignoreNosec g' ->
  Comments (context g) = Comments (context g') ->
  directivesMet g n = directivesMet g' n.
Proof.
  intros Hoff Hcm.
  assert (Hig : forall m, (ignore g m).1 = (ignore g' m).1 /\
                          nosecFound g m = nosecFound g' m).
  { intros m. unfold ignore, nosecFound. rewrite Hoff, Hcm.
    destruct (Comments (context g') !! addr m) as [groups|]; [|done].
    destruct (ignoreNosec g'); cbn [negb andb]; [done|].
    by destruct (ignoreGroups groups) as [[ig all]|]. }
  induction n as [a k cs IH] using Node_ind_children.
  cbn [directivesMet]. destruct (Hig (MkNode a k cs)) as [-> ->].
  f_equal. destruct ((ignore g' (MkNode a k cs)).1.2); [done|]. f_equal.
  induction IH as [|c cs Hc _ IHcs]; cbn [fmap list_fmap]; [done|].
  by rewrite Hc, IHcs.
Qed.

Lemma checkFile_nosec pkg g file :
  NumNosec (stats (checkFile pkg g file))
    = Nat.iter (directivesMet (withComments g (fileComments file)) (fileRoot file))
               plusplus (NumNosec (stats g)) /\
  ignoreNosec (checkFile pkg g file) = ignoreNosec g.
Proof.
  unfold checkFile. cbn [stats set_stats addFile NumNosec ignoreNosec].
  match goal with |- context [WalkAnalyzer (?g1, []) ?n] =>
    pose proof (Walk_spec n g1 g1 [] (frame_refl g1)) as ((Hoff & _) & _ & _ & Hn);
    rewrite Hn, Hoff;
    rewrite (directivesMet_ext g1 (withComments g (fileComments file)) n)
      by reflexivity
  end.
  done.
Qed.

Lemma checkPackages_nosec gosec pkgs :
  forall g,
    ignoreNosec g = ignoreNosec gosec ->
    NumNosec (stats (fold_left checkPackage pkgs g))
      = Nat.iter (directivesIn gosec (filesOf pkgs)) plusplus (NumNosec (stats g)).
Proof.
  assert (Hext : forall g file,
             ignoreNosec g = ignoreNosec gosec ->
             directivesMet (withComments g (fileComments file)) (fileRoot file)
             = directivesMet (withComments gosec (fileComments file)) (fileRoot file)).
  { intros g file Hg. by apply directivesMet_ext. }
  assert (Hfiles : forall pkg files g,
             ignoreNosec g = ignoreNosec gosec ->
             NumNosec (stats (fold_left (checkFile pkg) files g))
               = Nat.iter (directivesIn gosec files) plusplus (NumNosec (stats g)) /\
             ignoreNosec (fold_left (checkFile pkg) files g) = ignoreNosec gosec).
  { intros pkg. unfold directivesIn.
    induction files as [|file files IH]; intros g Hg;
      cbn [fold_left fmap list_fmap sum_list sum_list_with]; [done|].
    destruct (checkFile_nosec pkg g file) as [Hn Hoff].
    destruct (IH (checkFile pkg g file)) as [-> ->]; [congruence|].
    rewrite Hn, (Hext g file Hg). split; [|done].
    by rewrite Nat.add_comm, Nat.iter_add. }
  unfold filesOf.
  induction pkgs as [|pkg pkgs IH]; intros g Hg; cbn [fold_left flat_map]; [done|].
  unfold checkPackage at 2.
  destruct (Hfiles pkg (Syntax pkg) (log g (LogCheckingPackage (Name pkg))) Hg)
    as [Hn Hoff].
  rewrite IH by (unfold checkPackage; exact Hoff).
  unfold checkPackage. rewrite Hn. cbn [stats log set_logger].
  unfold directivesIn. rewrite fmap_app, sum_list_with_app.
  by rewrite Nat.add_comm, Nat.iter_add.
Qed.

(** X6: a call of [Process] that returns no error has gone through every
    file of every loaded package, each read with its own comment map:
    [NumFiles] was incremented once per file, [NumLines] grew, file after
    file, by the line count of each, and [NumNosec] was incremented once for
    every directive met in walking the files. *)
Theorem Process_counts_files (ld : Loader) (gosec : Analyzer)
    (buildTags packagePaths : list string) (gosec' : Analyzer) :
  Process ld gosec buildTags packagePaths = Next gosec' ->
  NumFiles (stats gosec')
    = Nat.iter (length (filesOf (loadedPackages ld gosec packagePaths))) plusplus
               (NumFiles (stats gosec)) /\
  NumLines (stats gosec')
    = fold_left (fun lines file => GoInt.wrap (lines + fileLineCount file))
                (filesOf (loadedPackages ld gosec packagePaths))
                (NumLines (stats gosec)) /\
  NumNosec (stats gosec')
    = Nat.iter (directivesIn gosec (filesOf (loadedPackages ld gosec packagePaths)))
               plusplus (NumNosec (stats gosec)).
Proof.
  unfold loadedPackages. rewrite Process_afterLoading.
  pose proof (loadPaths_sameButLogger ld packagePaths (gosec, [])) as Hs.
  destruct (forRange (loadPath ld) (gosec, []) packagePaths) as [[g pkgs]|[g pkgs] e|[g pkgs]];
    try discriminate.
  cbn [afterLoading flowState fst snd] in *. unfold checkPackages.
  destruct (recordErrors (errors g) pkgs) as [errs| |]; try discriminate.
  intros [= <-].
  destruct (checkPackages_counts pkgs (set_errors g (sortErrors errs))) as [-> ->].
  rewrite (checkPackages_nosec gosec pkgs (set_errors g (sortErrors errs)))
    by (cbn; sbl).
  cbn [stats set_errors]. by assert (stats gosec = stats g) as -> by sbl.
Qed.

(** X7: a call of [Process] that does not return nil has walked nothing:
    the issues, the metrics, the rule set and the context are those before
    the call, whether the loader failed, a package error did not parse, or
    the call panicked. *)
Theorem Process_failed_scans_nothing (ld : Loader) (gosec : Analyzer)
    (buildTags packagePaths : list string) :
  outcome (Process ld gosec buildTags packagePaths) <> ReturnedNil ->
  issues (flowState (Process ld gosec buildTags packagePaths)) = issues gosec /\
  stats (flowState (Process ld gosec buildTags packagePaths)) = stats gosec /\
  context (flowState (Process ld gosec buildTags packagePaths)) = context gosec /\
  ruleset (flowState (Process ld gosec buildTags packagePaths)) = ruleset gosec.
Proof.
  rewrite Process_afterLoading.
  pose proof (loadPaths_sameButLogger ld packagePaths (gosec, [])) as Hs.
  destruct (forRange (loadPath ld) (gosec, []) packagePaths) as [[g pkgs]|[g pkgs] e|[g pkgs]];
    cbn [afterLoading flowState fst outcome] in *; [|intros _; sbl|intros _; sbl].
  unfold checkPackages.
  destruct (recordErrors (errors g) pkgs) as [errs|errs e|errs];
    cbn [flowState outcome]; [done|intros _; sbl|intros _; sbl].
Qed.

(** X8: what was logged has no influence on the analysis.  Two analyzers
    that differ at most in their logger end a call of [Process] in the same
    way, with the same issues, metrics, errors and context. *)
Theorem Process_ignores_logger (ld : Loader) (g g' : Analyzer)
    (buildTags packagePaths : list string) :
  sameButLogger g g' ->
  flowRel sameButLogger (Process ld g buildTags packagePaths)
                        (Process ld g' buildTags packagePaths).
Proof.
  intros H. rewrite !Process_afterLoading. apply afterLoading_same.
  apply forRange_rel; [intros a a' x; apply loadPath_same|]. by split.
Qed.


(** ** Further properties of the directive parser and of the error parser *)

Lemma findAllFrom_shape s :
  forall skip,
    Forall (fun v => exists m, v = [m; m] /\ RuleID m) (findAllFrom skip s).
Proof.
  induction s as [|a r IH]; intros skip; cbn [findAllFrom]; [constructor|].
  destruct skip as [|k]; [|apply IH].
  destruct (matchRuleID (String a r)) as [m|] eqn:Hm; [|apply IH].
  constructor; [|apply IH]. exists m. split; [done|].
  by apply matchRuleID_Some in Hm as [Hid _].
Qed.

(** X10: what [ignore] returns is well formed.  Every code it returns is
    the letter G followed by three digits; it never returns codes together
    with exclude-all; and it finds the marker on a node exactly when it
    returns exclude-all or at least one code, so that a directive that is
    met always suppresses something. *)
Theorem ignore_result_shape (gosec : Analyzer) (n : Node) :
  Forall RuleID (ignore gosec n).1.1 /\
  ((ignore gosec n).1.2 = true -> (ignore gosec n).1.1 = []) /\
  (nosecFound gosec n = true <->
   (ignore gosec n).1.2 = true \/ (ignore gosec n).1.1 <> []).
Proof.
  unfold ignore, nosecFound.
  destruct (Comments (context gosec) !! addr n) as [groups|];
    [|cbn; repeat split; try done; intros [?|?]; done].
  destruct (ignoreNosec gosec); cbn [negb andb];
    [cbn; repeat split; try done; intros [?|?]; done|].
  induction groups as [|g groups IH]; cbn [ignoreGroups existsb].
  - cbn. repeat split; try done. intros [?|?]; done.
  - destruct (Contains g "#nosec"); cbn [orb]; [|exact IH].
    pose proof (findAllFrom_shape g 0) as Hshape.
    fold (FindAllStringSubmatch g) in Hshape.
    destruct (FindAllStringSubmatch g) as [|v vs]; cbn.
    + repeat split; try done. by left.
    + repeat split; try done; [|by right].
      apply Forall_cons in Hshape as [(m & -> & Hm) Hvs]. constructor; [done|].
      induction Hvs as [|w ws (m' & -> & Hm') _ IHws]; constructor; done.
Qed.

Lemma rev_app_append s1 :
  forall s2, String.rev_app s1 s2 = String.rev_app s1 EmptyString +:+ s2.
Proof.
  induction s1 as [|a s1 IH]; intros s2; cbn [String.rev_app]; [done|].
  rewrite (IH (String a s2)), (IH (String a EmptyString)). by rewrite append_assoc.
Qed.

Lemma String_rev_cons c s : String.rev (String c s) = String.rev s +:+ String c EmptyString.
Proof. unfold String.rev. cbn [String.rev_app]. apply rev_app_append. Qed.

(** The first field [Split] returns is built from the bytes seen so far
    and the bytes up to the next separator. *)
Lemma splitAcc_acc s :
  forall cur,
    splitAcc ":" cur s =
    (String.rev cur +:+ hd EmptyString (splitAcc ":" EmptyString s))
      :: tl (splitAcc ":" EmptyString s).
Proof.
  induction s as [|c r IH]; intros cur; cbn [splitAcc].
  - cbn [hd tl]. by rewrite append_nil_r.
  - destruct (Ascii.eqb c ":"); cbn [hd tl].
    + by rewrite append_nil_r.
    + rewrite (IH (String c cur)), (IH (String c EmptyString)). cbn [hd tl].
      by rewrite String_rev_cons, append_assoc.
Qed.

Lemma Split_field a b :
  noColon a = true -> Split (a +:+ ":" +:+ b) ":" = a :: Split b ":".
Proof.
  unfold Split. induction a as [|c a IH].
  - done.
  - cbn [noColon]. intros [Hc Ha]%andb_prop. apply negb_true_iff in Hc.
    rewrite append_cons. cbn [splitAcc]. rewrite Hc.
    rewrite splitAcc_acc, (IH Ha). done.
Qed.

Lemma Split_first s : Split s ":" !! 0%nat = Some (firstField s).
Proof.
  unfold Split. induction s as [|c r IH]; cbn; [done|].
  destruct (Ascii.eqb c ":"); [done|].
  rewrite splitAcc_acc. cbn.
  destruct (splitAcc ":" EmptyString r) as [|h t]; [discriminate|].
  cbn in *. by injection IH as ->.
Qed.

Lemma Split_noColon s : noColon s = true -> Split s ":" = [s].
Proof.
  unfold Split. induction s as [|c r IH]; cbn; [done|].
  intros [Hc Hr]%andb_prop. apply negb_true_iff in Hc. rewrite Hc.
  by rewrite splitAcc_acc, (IH Hr).
Qed.

Lemma Atoi_space s : Atoi (String " " s) = None.
Proof. reflexivity. Qed.

Lemma firstField_space s : firstField (String " " s) = String " " (firstField s).
Proof. reflexivity. Qed.

(** X11: package errors that do not carry [file:line:column].  A text
    without any colon makes the error loop panic (index out of range); the
    text of an error without position ([-: message]) and the text of an
    error with a line but no column ([file:line: message]) make it return
    the number-parsing error of the message, which [Process] returns; in all
    three cases nothing is recorded. *)
Theorem recordPackErr_without_position (errors : gmap string (list Error)) :
  (forall packErr,
      noColon packErr = true -> recordPackErr errors packErr = Panic errors) /\
  (forall msg,
      recordPackErr errors ("-: " +:+ msg)
      = Return errors (NumError "Atoi" (" " +:+ firstField msg))) /\
  (forall file line msg l,
      noColon file = true -> noColon line = true -> Atoi line = Some l ->
      recordPackErr errors (file +:+ ":" +:+ line +:+ ": " +:+ msg)
      = Return errors (NumError "Atoi" (" " +:+ firstField msg))).
Proof.
  split; [|split].
  - intros packErr Hp. unfold recordPackErr. by rewrite (Split_noColon _ Hp).
  - intros msg. unfold recordPackErr.
    change ("-: " +:+ msg) with ("-" +:+ ":" +:+ (String " " msg)).
    rewrite Split_field by done. cbn [lookup list_lookup].
    change ((Split (String " " msg) ":" !! 0%nat)) with
      (Split (String " " msg) ":" !! 0%nat).
    rewrite Split_first, firstField_space, Atoi_space. reflexivity.
  - intros file line msg l Hf Hl Hline. unfold recordPackErr.
    change (": " +:+ msg) with (":" +:+ String " " msg).
    rewrite Split_field by done. rewrite Split_field by done.
    cbn [lookup list_lookup]. rewrite Hline.
    change (list_lookup 0%nat (Split (String " " msg) ":")) with
      (Split (String " " msg) ":" !! 0%nat).
    rewrite Split_first, firstField_space, Atoi_space. reflexivity.
Qed.

(** X12: a package error [file:line:column:message] is appended to the
    errors of its file, after those already there, with the message cut at
    its first colon and trimmed; the errors of the other files are not
    touched. *)
Theorem recordPackErr_appends (errors : gmap string (list Error))
    (file line column msg : string) (l c : Z) :
  noColon file = true -> noColon line = true -> noColon column = true ->
  Atoi line = Some l -> Atoi column = Some c ->
  recordPackErr errors (file +:+ ":" +:+ line +:+ ":" +:+ column +:+ ":" +:+ msg)
  = Next (<[file := default [] (errors !! file)
                    ++ [NewError l c (strings_TrimSpace (firstField msg))]]> errors).
Proof.
  intros Hf Hl Hc Hline Hcol. unfold recordPackErr.
  rewrite !Split_field by done. cbn [lookup list_lookup]. rewrite Hline, Hcol.
  change (list_lookup 0%nat (Split msg ":")) with (Split msg ":" !! 0%nat).
  rewrite Split_first. by destruct (errors !! file).
Qed.

(** ** Exclusions are inherited; the nosec switch *)

Lemma topSet_activeSet g n : topSet (Ignores (context g)) ⊆ dom (activeSet g n).
Proof. unfold activeSet. rewrite dom_unionIgnores. set_solver. Qed.

(** X13: an exclusion holds for the whole subtree.  When a rule code is in
    the exclusion set computed at a node, inherited or named by the node's
    own directive, the walk of that node calls no rule with that code, at
    the node or at any node below it. *)
Theorem Walk_inherits_exclusion (gosec : Analyzer) (ev : list Event) (n : Node)
    (code : string) :
  code ∈ dom (activeSet gosec n) ->
  exists new,
    (WalkAnalyzer (gosec, ev) n).2 = ev ++ new /\
    forall a, EvMatch code a ∉ new.
Proof.
  revert gosec ev. rename code into c.
  induction n as [a k cs IH] using Node_ind_children.
  assert (Hcs : forall g3 ev3,
             c ∈ topSet (Ignores (context g3)) ->
             exists new,
               (fold_left (Walk Visit) cs (g3, ev3)).2 = ev3 ++ new /\
               forall b, EvMatch c b ∉ new).
  { induction IH as [|ch cs Hch _ IHcs]; intros g3 ev3 H3.
    - exists []. cbn. rewrite app_nil_r. split; [done|]. intros ?. apply not_elem_of_nil.
    - cbn [fold_left].
      destruct (Hch g3 ev3 (topSet_activeSet g3 ch c H3)) as (new1 & Hnew1 & Hno1).
      pose proof (Walk_spec ch g3 g3 ev3 (frame_refl g3)) as (_ & Hst & _).
      unfold WalkAnalyzer in *.
      destruct (Walk Visit (g3, ev3) ch) as [g4 ev4]. cbn [fst snd] in *.
      destruct (IHcs g4 ev4) as (new2 & Hnew2 & Hno2); [by rewrite Hst|].
      exists (new1 ++ new2). rewrite Hnew2, Hnew1, <- app_assoc. split; [done|].
      intros b [?|?]%elem_of_app; [by eapply Hno1|by eapply Hno2]. }
  clear IH. intros g ev Hc. set (n := MkNode a k cs) in *.
  unfold WalkAnalyzer. subst n. rewrite Walk_unfold, Visit_Some.
  set (n := MkNode a k cs) in *.
  destruct ((ignore g n).1.2).
  { exists []. cbn. rewrite app_nil_r. split; [done|]. intros ?. apply not_elem_of_nil. }
  pose proof (runRules_spec n (activeSet g n) (RegisteredFor (ruleset g) n)
                (enter g n) (ev ++ [EvScope (addr n) (activeSet g n)])) as Hrun.
  cbn zeta in Hrun.
  destruct (fold_left (runRule n (activeSet g n)) (RegisteredFor (ruleset g) n)
              (enter g n, ev ++ [EvScope (addr n) (activeSet g n)])) as [g2 ev2].
  cbn [fst snd] in Hrun. destruct Hrun as (Hev2 & _ & Hctx2 & _).
  assert (Hst2 : Ignores (context g2) = activeSet g n :: Ignores (context g)).
  { rewrite Hctx2. unfold enter. cbn. by rewrite ignore_context. }
  destruct (Hcs g2 ev2) as (new3 & Hnew3 & Hno3); [by rewrite Hst2|].
  destruct (fold_left (Walk Visit) cs (g2, ev2)) as [g3 ev3]. cbn [fst snd] in *.
  pose proof (Visit_None g3 ev3) as Hleave. cbn zeta in Hleave.
  destruct (Visit (g3, ev3) None) as [[g4 ev4] more4]. cbn [fst snd] in *.
  destruct Hleave as (_ & -> & _).
  exists ((EvScope (addr n) (activeSet g n) ::
           ((fun rule => EvMatch (ID rule) (addr n)) <$>
              dispatched (activeSet g n) (RegisteredFor (ruleset g) n))) ++ new3).
  split; [rewrite Hnew3, Hev2, <- !app_assoc; reflexivity|].
  intros b [Hin|Hin]%elem_of_app; [|by eapply Hno3].
  apply elem_of_cons in Hin as [|Hin]; [discriminate|].
  apply list_elem_of_fmap in Hin as (rule & Heq & [Hnone _]%list_elem_of_filter).
  injection Heq as -> _. apply elem_of_dom in Hc as [? Hc]. congruence.
Qed.

Lemma activeSets_switch gosec n :
  ignoreNosec gosec = true ->
  forall P, activeSets gosec P n = (fun a => (a, P)) <$> preorder n.
Proof.
  intros Hon.
  assert (Hig : forall m, (ignore gosec m).1 = ([], false)).
  { intros m. unfold ignore. rewrite Hon.
    by destruct (Comments (context gosec) !! addr m). }
  induction n as [a k cs IH] using Node_ind_children. intros P.
  cbn [activeSets preorder]. rewrite Hig. cbn [fst snd list_to_set].
  rewrite (right_id_L ∅ (∪) P). cbn [fmap list_fmap]. f_equal.
  induction IH as [|c cs Hc _ IHcs]; cbn [flat_map]; [done|].
  by rewrite fmap_app, Hc, IHcs.
Qed.

Lemma directivesMet_switch gosec n :
  ignoreNosec gosec = true -> directivesMet gosec n = 0%nat.
Proof.
  intros Hon.
  induction n as [a k cs IH] using Node_ind_children.
  cbn [directivesMet]. unfold nosecFound, ignore. rewrite Hon.
  destruct (Comments (context gosec) !! addr (MkNode a k cs)); cbn;
    induction IH as [|c cs Hc _ IHcs]; cbn; rewrite ?Hc; try done.
Qed.

(** X14: with the nosec switch on no comment suppresses anything.  [ignore]
    returns no code and no exclude-all for every node; a walk enters every
    node of the tree, in order, each with the exclusion set the walk started
    from, and leaves [NumNosec] as it was. *)
Theorem Walk_with_switch_on (gosec : Analyzer) (ev : list Event) (n : Node) :
  ignoreNosec gosec = true ->
  (forall m, ignore gosec m = ([], false, gosec)) /\
  (exists new,
      (WalkAnalyzer (gosec, ev) n).2 = ev ++ new /\
      pushed new =
        (fun a => (a, topSet (Ignores (context gosec)))) <$> preorder n) /\
  NumNosec (stats (WalkAnalyzer (gosec, ev) n).1) = NumNosec (stats gosec).
Proof.
  intros Hon.
  destruct (Walk_spec n gosec gosec ev (frame_refl gosec)) as (_ & _ & Hev & Hn).
  split; [|split].
  - intros m. unfold ignore. rewrite Hon.
    by destruct (Comments (context gosec) !! addr m).
  - destruct Hev as (new & Hnew & Hp). exists new. split; [done|].
    by rewrite Hp, activeSets_switch.
  - by rewrite Hn, directivesMet_switch.
Qed.

(** ** Errors and rules accumulate *)

Lemma keepsErrors_refl errs : keepsErrors errs errs.
Proof. intros file l H. by exists l. Qed.

Lemma keepsErrors_trans e1 e2 e3 :
  keepsErrors e1 e2 -> keepsErrors e2 e3 -> keepsErrors e1 e3.
Proof.
  intros H12 H23 file l H1. destruct (H12 file l H1) as (l2 & H2 & Hp2).
  destruct (H23 file l2 H2) as (l3 & H3 & Hp3). exists l3. split; [done|by etrans].
Qed.

Lemma recordPackErr_keeps errs packErr errs' :
  recordPackErr errs packErr = Next errs' -> keepsErrors errs errs'.
Proof.
  unfold recordPackErr.
  destruct (Split packErr ":" !! 0%nat) as [filePath|]; [|discriminate].
  destruct (Split packErr ":" !! 1%nat) as [s1|]; [|discriminate].
  destruct (Atoi s1) as [line|]; [|discriminate].
  destruct (Split packErr ":" !! 2%nat) as [s2|]; [|discriminate].
  destruct (Atoi s2) as [column|]; [|discriminate].
  destruct (Split packErr ":" !! 3%nat) as [s3|]; [|discriminate].
  destruct (errs !! filePath) as [errSlice|] eqn:Hf; intros [= <-] file l Hl.
  - destruct (decide (filePath = file)) as [->|Hne].
    + rewrite lookup_insert_eq. eexists. split; [done|].
      rewrite Hf in Hl. injection Hl as ->. by apply prefix_app_r.
    + rewrite lookup_insert_ne by done. by exists l.
  - destruct (decide (filePath = file)) as [->|Hne]; [congruence|].
    rewrite lookup_insert_ne by done. by exists l.
Qed.

Lemma recordErrors_keeps pkgs :
  forall errs errs', recordErrors errs pkgs = Next errs' -> keepsErrors errs errs'.
Proof.
  assert (Hpk : forall l errs errs',
             forRange recordPackErr errs l = Next errs' -> keepsErrors errs errs').
  { induction l as [|e l IH]; intros errs errs'; cbn [forRange].
    - intros [= <-]. apply keepsErrors_refl.
    - destruct (recordPackErr errs e) as [errs1| |] eqn:He; try discriminate.
      intros H. eapply keepsErrors_trans; [by eapply recordPackErr_keeps|by apply IH]. }
  unfold recordErrors.
  induction pkgs as [|pkg pkgs IH]; intros errs errs'; cbn [forRange].
  - intros [= <-]. apply keepsErrors_refl.
  - destruct (forRange recordPackErr errs (Errors pkg)) as [errs1| |] eqn:He;
      try discriminate.
    intros H. eapply keepsErrors_trans; [by eapply Hpk|by apply IH].
Qed.

(** X15: [Process] never drops a recorded error.  After a call that
    returns no error, every file that had errors before the call still has
    all of them (with those the call added, in sorted order); errors are
    cleared by neither [Process] nor [Reset]. *)
Theorem Process_keeps_errors (ld : Loader) (gosec : Analyzer)
    (buildTags packagePaths : list string) (gosec' : Analyzer) :
  Process ld gosec buildTags packagePaths = Next gosec' ->
  forall file l,
    (Report gosec).2 !! file = Some l ->
    exists l', (Report gosec').2 !! file = Some l' /\ l ⊆+ l'.
Proof.
  unfold Report. cbn [snd]. rewrite Process_afterLoading.
  pose proof (loadPaths_sameButLogger ld packagePaths (gosec, [])) as Hs.
  destruct (forRange (loadPath ld) (gosec, []) packagePaths) as [[g pkgs]|[g pkgs] e|[g pkgs]];
    try discriminate.
  cbn [afterLoading flowState fst] in *. unfold checkPackages.
  destruct (recordErrors (errors g) pkgs) as [errs| |] eqn:Hrec; try discriminate.
  intros [= <-] file l Hl. rewrite checkPackages_errors. cbn [errors set_errors].
  assert (errors gosec = errors g) as Heq by sbl. rewrite Heq in Hl.
  destruct (recordErrors_keeps _ _ _ Hrec file l Hl) as (l1 & Hl1 & [k ->]).
  exists (merge_sort byLineAndColumn (l ++ k)). split.
  - unfold sortErrors. by rewrite lookup_fmap, Hl1.
  - rewrite merge_sort_Permutation. by apply submseteq_inserts_r.
Qed.

(** X16: [LoadRules] adds to the rule set.  The rules registered before a
    call keep their places at the head of every category; the rule an entry
    of the table builds, from its key and the configuration, is registered
    for each category the builder lists; and an empty table changes
    nothing. *)
Theorem LoadRules_adds (gosec : Analyzer) (defs : gmap string RuleBuilder)
    (gosec' : Analyzer) :
  LoadRules gosec defs gosec' ->
  (forall n, RegisteredFor (ruleset gosec) n `prefix_of` RegisteredFor (ruleset gosec') n) /\
  (forall id def n,
      defs !! id = Some def ->
      kind n ∈ (def id (config gosec)).2 ->
      (def id (config gosec)).1 ∈ RegisteredFor (ruleset gosec') n) /\
  (defs = ∅ -> gosec' = gosec).
Proof.
  intros [order Horder]. split; [|split].
  - intros n. rewrite LoadRulesIn_registered. by apply prefix_app_r.
  - intros id def n Hdef Hkind. rewrite LoadRulesIn_registered.
    apply elem_of_app. right. apply list_elem_of_In, in_flat_map.
    exists (id, def). split.
    + apply list_elem_of_In. rewrite Horder. by apply elem_of_map_to_list.
    + apply list_elem_of_In. unfold contributes. cbn [fst snd].
      destruct (def id (config gosec)) as [r nodes]. cbn [fst snd] in *.
      apply list_elem_of_fmap. exists (kind n). split; [done|].
      by apply list_elem_of_filter.
  - intros ->. rewrite map_to_list_empty in Horder.
    apply Permutation_nil_r in Horder as ->. reflexivity.
Qed.

End GosecFacts.

(** * Worked examples *)

#[local] Existing Instance exEnv.

(** Scenario A: the call carries a directive naming G101; G101 is silent
    on the call and G102 reports the nested binary expression. *)
Example scenario_A :
  issues (WalkAnalyzer (exAnalyzer false "#nosec G101", []) exRoot).1 = [("G102", 2%nat)].
Proof. vm_compute. reflexivity. Qed.

(** Scenario B: the bare marker silences the whole subtree. *)
Example scenario_B :
  issues (WalkAnalyzer (exAnalyzer false "#nosec", []) exRoot).1 = [] /\
  (WalkAnalyzer (exAnalyzer false "#nosec", []) exRoot).2 = [EvScope 0 ∅].
Proof. vm_compute. split; reflexivity. Qed.

(** Scenario C: one path that does not exist and one valid path. *)
Example scenario_C :
  outcome (Process exLoader exStart [] ["nowhere"; "good"]) = ReturnedNil /\
  NumFiles (stats (flowState (Process exLoader exStart [] ["nowhere"; "good"]))) = 1 /\
  issues (flowState (Process exLoader exStart [] ["nowhere"; "good"])) = [("G102", 2%nat)].
Proof. vm_compute. repeat split; reflexivity. Qed.

(** A directive on the call: the sets pushed on the way down, and the one
    directive counted. *)
Example scenario_nested :
  pushed (WalkAnalyzer (exAnalyzer false "#nosec G101 G204", []) exRoot).2
    = [(0%nat, ∅); (1%nat, {["G101"; "G204"]}); (2%nat, {["G101"; "G204"]})] /\
  NumNosec (stats (WalkAnalyzer (exAnalyzer false "#nosec G101 G204", []) exRoot).1) = 1.
Proof. vm_compute. split; reflexivity. Qed.

(** With the nosec switch on, directives are not read at all. *)
Example scenario_switch :
  issues (WalkAnalyzer (exAnalyzer true "#nosec", []) exRoot).1
    = [("G101", 1%nat); ("G102", 2%nat)] /\
  NumNosec (stats (WalkAnalyzer (exAnalyzer true "#nosec", []) exRoot).1) = 0.
Proof. vm_compute. split; reflexivity. Qed.

(** The string functions on the texts [Process] and [ignore] meet. *)
Example FindAll_two :
  FindAllStringSubmatch "#nosec G101 G2045" = [["G101"; "G101"]; ["G204"; "G204"]].
Proof. reflexivity. Qed.

Example Split_packErr : Split "a.go:10:4: oops" ":" = ["a.go"; "10"; "4"; " oops"].
Proof. reflexivity. Qed.

Example Atoi_samples :
  Atoi "10" = Some 10 /\ Atoi " oops" = None /\ Atoi "-7" = Some (-7) /\ Atoi "" = None.
Proof. repeat split; reflexivity. Qed.

(** ** Where the specification and the code part *)

(** C4, as stated, fails: [A123] is one uppercase letter followed by three
    digits and follows the marker, yet [ignore] reads no code in it and
    returns exclude-all; only the letter G starts a code. *)
Lemma ignore_letter_counterexample :
  Comments (context (exAnalyzer false "#nosec A123")) !! addr exCall
    = Some ["#nosec A123"] /\
  ignoreNosec (exAnalyzer false "#nosec A123") = false /\
  (ignore (exAnalyzer false "#nosec A123") exCall).1 = ([], true) /\
  (ignore (exAnalyzer false "#nosec A123") exCall).1 <> (["A123"], false).
Proof. vm_compute. repeat split; [reflexivity..|discriminate]. Qed.

(** Both orders are orders in which the loop may meet the table. *)
Lemma exTable_orders :
  LoadRules (NewAnalyzer tt None) exTable (LoadRulesIn exInOrder (NewAnalyzer tt None)) /\
  LoadRules (NewAnalyzer tt None) exTable (LoadRulesIn exReversed (NewAnalyzer tt None)).
Proof.
  assert (Hin : exInOrder ≡ₚ map_to_list exTable).
  { unfold exInOrder, exTable. rewrite map_to_list_insert by done.
    rewrite map_to_list_insert by done. by rewrite map_to_list_empty. }
  assert (Hrev : exReversed ≡ₚ map_to_list exTable).
  { rewrite <- Hin. apply perm_swap. }
  split; apply LoadRules_range; assumption.
Qed.


(** C8, as stated, fails: a package and its test variant report the same
    type error, both are kept, and the errors of the file are not in
    strictly ascending order. *)
Lemma Process_errors_strict_counterexample :
  outcome (Process exLoader exStart [] ["typo"]) = ReturnedNil /\
  (Report (flowState (Process exLoader exStart [] ["typo"]))).2 !! "a.go"
    = Some [NewError 10 4 "undeclared name"; NewError 10 4 "undeclared name"] /\
  ~ Sorted strictlyBefore
      [NewError 10 4 "undeclared name"; NewError 10 4 "undeclared name"].
Proof.
  split; [vm_compute; reflexivity|]. split; [vm_compute; reflexivity|].
  intros Hs. inversion Hs as [|? ? _ Hhd]; subst.
  inversion Hhd as [|? ? Hlt]; subst.
  unfold strictlyBefore in Hlt. cbn in Hlt. lia.
Qed.

(** ** The theorems at work *)

(** C2 at work: the call carries the bare marker; walking it records
    nothing, although rule G102 would report the binary expression below. *)
Lemma Walk_exclude_all_witness :
  (ignore (exAnalyzer false "#nosec") exCall).1.2 = true /\
  (WalkAnalyzer (exAnalyzer false "#nosec", []) exCall).2 = [] /\
  issues (WalkAnalyzer (exAnalyzer false "#nosec", []) exCall).1 = [].
Proof.
  assert (H : (ignore (exAnalyzer false "#nosec") exCall).1.2 = true)
    by (vm_compute; reflexivity).
  split; [exact H|].
  destruct (Walk_exclude_all (exAnalyzer false "#nosec") [] exCall H)
    as (Hev & His & _).
  split; [exact Hev|]. rewrite His. reflexivity.
Defined.

(** C3 at work: G101 is registered for calls and excluded on the call. *)
Lemma Visit_skips_excluded_witness :
  exRule "G101" ∈ RegisteredFor (ruleset (exAnalyzer false "#nosec G101")) exCall /\
  is_Some (activeSet (exAnalyzer false "#nosec G101") exCall !! "G101") /\
  exists new,
    (Visit (exAnalyzer false "#nosec G101", []) (Some exCall)).1.2 = new /\
    (EvMatch "G101" 1 ∉ new).
Proof.
  assert (H1 : exRule "G101" ∈
               RegisteredFor (ruleset (exAnalyzer false "#nosec G101")) exCall)
    by (vm_compute; apply list_elem_of_here).
  assert (H2 : is_Some (activeSet (exAnalyzer false "#nosec G101") exCall !! "G101"))
    by (vm_compute; eexists; reflexivity).
  split; [exact H1|]. split; [exact H2|].
  destruct (Visit_skips_excluded (exAnalyzer false "#nosec G101") [] exCall
              (exRule "G101") H1 H2) as (new & invoked & Hev & Hno & _).
  exists new. split; [exact Hev|exact Hno].
Defined.

(** C4 (amended) at work: codes before and after the marker, among words
    that begin with the letter G. *)
Lemma ignore_directive_witness :
  (ignore (exAnalyzer false "Go G100: GetFoo. #nosec Go vet G101, G2045") exCall).1
  = (["G100"; "G101"; "G204"], false).
Proof.
  refine (proj1 (ignore_directive
                   (exAnalyzer false "Go G100: GetFoo. #nosec Go vet G101, G2045")
                   exCall eq_refl)
            [] "Go G100: GetFoo. #nosec Go vet G101, G2045" [] "Go "
            [("G100", ": GetFoo. #nosec Go vet "); ("G101", ", "); ("G204", "5")]
            _ _ _ _ _ _ _).
  - vm_compute. reflexivity.
  - constructor.
  - reflexivity.
  - reflexivity.
  - apply hasCode_codeFree. reflexivity.
  - repeat constructor; cbn [fst snd];
      first [ apply hasCode_codeFree; reflexivity
            | match goal with |- RuleID ?c =>
                exact (proj1 (matchRuleID_Some c c eq_refl)) end ].
  - discriminate.
Defined.


(** C7 at work: a path that does not exist before a valid one, and a
    directory whose import fails between two valid ones. *)
Lemma Process_paths_witness :
  flowRel sameButLogger
    (Process exLoader exStart [] ["nowhere"; "good"])
    (Process exLoader exStart [] ["good"]) /\
  LogSkipping "" ∈
    logOutput (logger (flowState (Process exLoader exStart [] ["nowhere"; "good"]))) /\
  outcome (Process exLoader exStart [] ["good"; "broken"; "typo"])
    = ReturnedErr (OtherError "no buildable Go source files") /\
  sameButLogger exStart (flowState (Process exLoader exStart [] ["good"; "broken"; "typo"])).
Proof.
  destruct (Process_paths exLoader exStart []) as [Hskip Hfail].
  assert (Hmiss : missing exLoader "nowhere") by (vm_compute; eexists; reflexivity).
  destruct (Hskip [] "nowhere" ["good"] Hmiss) as [Hrel Hlog].
  split; [exact Hrel|]. split; [exact (Hlog (Forall_nil_2 _))|].
  assert (Hpre : Forall (fun q => missing exLoader q \/ loadsFine exLoader q) ["good"]).
  { constructor; [|constructor]. right. vm_compute. repeat split. }
  assert (Hbad : loadFails exLoader "broken" (OtherError "no buildable Go source files")).
  { vm_compute. split; [reflexivity|]. left. reflexivity. }
  destruct (Hfail ["good"] "broken" ["typo"] _ Hpre Hbad) as [Hret Hsame].
  split; [|exact Hsame]. cbn [app] in Hret. rewrite Hret. reflexivity.
Defined.

(** C8 (amended) at work: scenario D, one error at line 10, column 4,
    reported by a package and by its test variant. *)
Lemma Process_errors_sorted_witness :
  StronglySorted byLineAndColumn
    [NewError 10 4 "undeclared name"; NewError 10 4 "undeclared name"].
Proof.
  refine (Process_errors_sorted exLoader exStart [] ["typo"]
            (flowState (Process exLoader exStart [] ["typo"])) _ "a.go" _ _).
  - vm_compute. reflexivity.
  - vm_compute. reflexivity.
Defined.

(** ** The further properties at work *)

(** A failing rule between two reporting ones: all three are called, both
    issues are recorded and the failure is logged once. *)
Example scenario_failing_rule :
  (Visit (exAnalyzerFailing "", []) (Some exCall)).1.2
    = [EvScope 1 ∅; EvMatch "G101" 1; EvMatch "G103" 1; EvMatch "G104" 1] /\
  issues (Visit (exAnalyzerFailing "", []) (Some exCall)).1.1
    = [("G101", 1%nat); ("G104", 1%nat)] /\
  logOutput (logger (Visit (exAnalyzerFailing "", []) (Some exCall)).1.1)
    = [LogRuleError "*rules.failing" (OtherError "no type information") "a.go" 1].
Proof. vm_compute. repeat split; reflexivity. Qed.

(** X2 at work. *)
Lemma Visit_calls_every_rule_witness :
  (Visit (exAnalyzerFailing "", []) (Some exCall)).1.2
    = [EvScope 1 ∅; EvMatch "G101" 1; EvMatch "G103" 1; EvMatch "G104" 1].
Proof.
  assert (H : (ignore (exAnalyzerFailing "") exCall).1.2 = false)
    by (vm_compute; reflexivity).
  rewrite (proj1 (proj2 (Visit_calls_every_rule (exAnalyzerFailing "") [] exCall H))).
  vm_compute. reflexivity.
Defined.

(** X4 at work: no [LoadRules] before [Process]. *)
Lemma Process_without_rules_witness :
  issues (flowState (Process exLoader (NewAnalyzer tt None) [] ["good"])) = [].
Proof.
  exact (proj1 (Process_without_rules exLoader (NewAnalyzer tt None) [] ["good"] eq_refl)).
Defined.

(** X6 at work: one package of one file of twelve lines, with one
    directive. *)
Lemma Process_counts_files_witness :
  NumFiles (stats (flowState (Process exLoader exStart [] ["good"]))) = 1 /\
  NumLines (stats (flowState (Process exLoader exStart [] ["good"]))) = 12 /\
  NumNosec (stats (flowState (Process exLoader exStart [] ["good"]))) = 1.
Proof.
  assert (H : Process exLoader exStart [] ["good"]
              = Next (flowState (Process exLoader exStart [] ["good"])))
    by (vm_compute; reflexivity).
  destruct (Process_counts_files exLoader exStart [] ["good"] _ H) as (Hf & Hl & Hn).
  rewrite Hf, Hl, Hn. vm_compute. repeat split; reflexivity.
Defined.

(** X7 at work: the import of the second directory fails. *)
Lemma Process_failed_scans_nothing_witness :
  issues (flowState (Process exLoader exStart [] ["good"; "broken"])) = [] /\
  stats (flowState (Process exLoader exStart [] ["good"; "broken"])) = emptyMetrics.
Proof.
  assert (H : outcome (Process exLoader exStart [] ["good"; "broken"]) <> ReturnedNil)
    by (vm_compute; discriminate).
  destruct (Process_failed_scans_nothing exLoader exStart [] ["good"; "broken"] H)
    as (Hi & Hs & _).
  rewrite Hi, Hs. vm_compute. split; reflexivity.
Defined.

(** X8 at work: the same analyzer after a line was logged. *)
Lemma Process_ignores_logger_witness :
  flowRel sameButLogger
    (Process exLoader exStart [] ["good"])
    (Process exLoader (log exStart (LogCheckingFile "earlier.go")) [] ["good"]).
Proof.
  apply Process_ignores_logger. vm_compute. repeat split.
Defined.


(** X12 at work: the text of a type error; the message is cut at its
    colon. *)
Lemma recordPackErr_appends_witness :
  recordPackErr ∅ "a.go:10:4: undeclared name: x"
  = Next {[ "a.go" := [NewError 10 4 "undeclared name"] ]}.
Proof.
  etrans;
    [exact (recordPackErr_appends ∅ "a.go" "10" "4" " undeclared name: x" 10 4
              eq_refl eq_refl eq_refl eq_refl eq_refl)|].
  vm_compute. reflexivity.
Defined.

(** X13 at work: the directive on the call names G102, the rule of the
    binary expression below it. *)
Lemma Walk_inherits_exclusion_witness :
  exists new,
    (WalkAnalyzer (exAnalyzer false "#nosec G102", []) exCall).2 = [] ++ new /\
    forall a, EvMatch "G102" a ∉ new.
Proof.
  apply Walk_inherits_exclusion. vm_compute. reflexivity.
Defined.

(** X14 at work: the bare marker on the call, with the switch on. *)
Lemma Walk_with_switch_on_witness :
  NumNosec (stats (WalkAnalyzer (exAnalyzer true "#nosec", []) exRoot).1) = 0 /\
  exists new,
    (WalkAnalyzer (exAnalyzer true "#nosec", []) exRoot).2 = [] ++ new /\
    pushed new = [(0%nat, ∅); (1%nat, ∅); (2%nat, ∅)].
Proof.
  destruct (Walk_with_switch_on (exAnalyzer true "#nosec") [] exRoot eq_refl)
    as (_ & (new & Hnew & Hp) & Hn).
  split; [exact Hn|]. exists new. split; [exact Hnew|]. exact Hp.
Defined.

(** X15 at work: a second call over the same directory keeps the two
    errors of the first. *)
Lemma Process_keeps_errors_witness :
  exists l',
    (Report (flowState
       (Process exLoader (flowState (Process exLoader exStart [] ["typo"])) [] ["typo"]))).2
      !! "a.go" = Some l' /\
    [NewError 10 4 "undeclared name"; NewError 10 4 "undeclared name"] ⊆+ l'.
Proof.
  refine (Process_keeps_errors exLoader (flowState (Process exLoader exStart [] ["typo"]))
            [] ["typo"] _ _ "a.go" _ _).
  - vm_compute. reflexivity.
  - vm_compute. reflexivity.
Defined.

(** X16 at work: rule G101 of the table is registered for calls. *)
Lemma LoadRules_adds_witness :
  exRule "G101" ∈
    RegisteredFor (ruleset (LoadRulesIn exInOrder (NewAnalyzer tt None))) exCall.
Proof.
  refine (proj1 (proj2 (LoadRules_adds (NewAnalyzer tt None) exTable _
                          (proj1 exTable_orders)))
            "G101" (exBuilder ["*ast.CallExpr"]) exCall _ _).
  - vm_compute. reflexivity.
  - vm_compute. apply list_elem_of_here.
Defined.
